(** * PDF Selection Viewer: chat session, region capture, classifier,
      annotation store and document registry

    A shallow embedding of
      - [src/lib/gemini.ts]            (module [Gemini]),
      - [src/components/GeminiChat.tsx] (module [GeminiChat]),
      - [src/components/PDFViewer.tsx]  (modules [Regex] and [Viewer]),
      - [src/lib/db.ts]                 (module [Db]),
    followed by the properties of the specification that concern them. *)

From Stdlib Require Import List String Ascii Bool Arith NArith ZArith Lia DecimalString.
From Stdlib Require Import QArith Qabs Qminmax Qround.
From Stdlib Require Floats.
Import ListNotations.

Close Scope Q_scope.

Local Open Scope string_scope.
Local Open Scope list_scope.

(* ================================================================== *)
(** ** JavaScript values shared by the components *)
(* ================================================================== *)

Module Js.

(** The line feed character and the one-character string ["\n"]. *)
Definition lf : ascii := ascii_of_nat 10.
Definition nl : string := String lf EmptyString.

(** Truthiness of a string: only the empty string is falsy. *)
Definition truthy (s : string) : bool := negb (s =? "").

(** Truthiness of an optional string ([undefined] is falsy). *)
Definition truthy_opt (o : option string) : bool :=
  match o with
  | Some s => truthy s
  | None => false
  end.

(** [a || b] on strings. *)
Definition or_else (a b : string) : string := if truthy a then a else b.

(** [l.slice(-n)]: the last [n] elements of [l] (all of [l] when it is shorter). *)
Definition slice_last {A : Type} (n : nat) (l : list A) : list A :=
  skipn (List.length l - n) l.

(** [s.split('\n')]. *)
Fixpoint split_lines (s : string) : list string :=
  match s with
  | EmptyString => [EmptyString]
  | String c r =>
      if Ascii.eqb c lf then EmptyString :: split_lines r
      else match split_lines r with
           | h :: t => String c h :: t
           | [] => [String c EmptyString]
           end
  end.

(** [s.slice(n)]: [s] without its first [n] characters. *)
Fixpoint drop (n : nat) (s : string) : string :=
  match n, s with
  | O, _ => s
  | S _, EmptyString => EmptyString
  | S k, String _ r => drop k r
  end.

(** The strings of a list, put one after the other. *)
Definition join (l : list string) : string := fold_right append "" l.

(** Template interpolation of a non-negative integer. *)
Definition of_nat (n : nat) : string := NilEmpty.string_of_uint (Nat.to_uint n).

(** [updated[updated.length - 1] = f(updated[updated.length - 1])] on a copy of
    the array.  On an empty array the index is [-1]: the assignment creates a
    property named "-1", which is no element, so the array keeps length 0 and
    the next spread [[...prev]] drops the property. *)
Fixpoint map_last {A : Type} (f : A -> A) (l : list A) : list A :=
  match l with
  | [] => []
  | [x] => [f x]
  | x :: r => x :: map_last f r
  end.

End Js.

(* ================================================================== *)
(** ** Chat messages *)
(* ================================================================== *)

Inductive Role := User | Assistant.

(** [interface Message]: [imageData] and [isStreaming] are optional fields. *)
Record Message := mkMessage {
  role : Role;
  content : string;
  imageData : option string;
  isStreaming : option bool
}.

(** The test [m.isStreaming] ([undefined] and [false] are falsy). *)
Definition streaming (m : Message) : bool :=
  match isStreaming m with
  | Some true => true
  | _ => false
  end.

(** [m => !m.isStreaming] *)
Definition committed (m : Message) : bool := negb (streaming m).

(* ================================================================== *)
(** ** lib/gemini.ts *)
(* ================================================================== *)

Module Gemini.

Import Js.

(** One entry of the request's [messages] array: plain text, or a text part
    followed by an image part. *)
Inductive ApiContent :=
| Plain (text : string)
| Parts (text : string) (image_url : string).

Record ApiMessage := mkApiMessage {
  api_role : Role;
  api_content : ApiContent
}.

(** The body of the POST request. *)
Record Request := mkRequest {
  model : string;
  req_messages : list ApiMessage;
  max_tokens : nat;
  stream : bool
}.

Definition MODEL_WITH_VISION : string := "openai/gpt-4o-mini".
Definition MODEL_TEXT_ONLY : string := "openai/gpt-4o-mini".

(** What the network does with the request. *)
Inductive StreamEnd :=
| StreamDone                      (* reader.read() reports done *)
| StreamError (msg : string).     (* reader.read() rejects      *)

Record Body := mkBody {
  reads : list string;            (* the decoded value of every read, in order *)
  ending : StreamEnd
}.

Record Response := mkResponse {
  ok : bool;
  status : nat;
  text : string;                  (* response.text() *)
  body : option Body              (* response.body?.getReader() *)
}.

Inductive FetchResult :=
| FetchRejected (msg : string)
| FetchResponse (r : Response).

Record Env := mkEnv {
  apiKey : option string;         (* process.env.NEXT_PUBLIC_OPENROUTER_API_KEY *)
  fetch : FetchResult
}.

(** How the promise returned by an async function settles. *)
Inductive Settled :=
| Fulfilled
| Rejected (msg : string).

(** The effects of one call, as seen by the caller: the request handed to
    fetch (if any), the arguments of the successive [onChunk] calls, and how
    the promise settles. *)
Record Outcome := mkOutcome {
  request : option Request;
  calls : list string;
  settled : Settled
}.

Definition data_url (b64 : string) : string := "data:image/png;base64," ++ b64.

(** The body of the loop over [recentHistory]. *)
Definition encode (msg : Message) : ApiMessage :=
  match imageData msg with
  | Some img =>
      if truthy img
      then mkApiMessage (role msg) (Parts (content msg) (data_url img))
      else mkApiMessage (role msg) (Plain (content msg))
  | None => mkApiMessage (role msg) (Plain (content msg))
  end.

(** "Add current message". *)
Definition encode_current (prompt : string) (imageBase64 : option string) : ApiMessage :=
  match imageBase64 with
  | Some img =>
      if truthy img
      then mkApiMessage User (Parts prompt (data_url img))
      else mkApiMessage User (Plain prompt)
  | None => mkApiMessage User (Plain prompt)
  end.

Definition build_request (prompt : string) (imageBase64 : option string)
    (chatHistory : list Message) : Request :=
  let recentHistory := slice_last 10 chatHistory in
  {| model := if truthy_opt imageBase64 then MODEL_WITH_VISION else MODEL_TEXT_ONLY;
     req_messages := map encode recentHistory ++ [encode_current prompt imageBase64];
     max_tokens := 2048;
     stream := true |}.

(** What an entry of the request carries: its role, its text, and the
    url of its image part if it has one. *)
Definition entry_text (e : ApiMessage) : string :=
  match api_content e with
  | Plain t => t
  | Parts t _ => t
  end.

Definition entry_image (e : ApiMessage) : option string :=
  match api_content e with
  | Plain _ => None
  | Parts _ url => Some url
  end.

Definition entry (e : ApiMessage) : Role * string * option string :=
  (api_role e, entry_text e, entry_image e).

Definition key_missing (k : option string) : bool :=
  match k with
  | None => true
  | Some s => negb (truthy s) || (s =? "your_openrouter_api_key_here")
  end.

Definition missing_key_text : string :=
  "Error: Please set NEXT_PUBLIC_OPENROUTER_API_KEY in .env.local" ++ nl ++ nl
  ++ "Get key at: https://openrouter.ai/keys".

(** The template of the [catch] block. *)
Definition caught_text (msg : string) : string := nl ++ "Error: " ++ msg.

(** The template of the [!response.ok] block. *)
Definition status_text (r : Response) : string :=
  "Error: " ++ of_nat (status r) ++ " - " ++ text r.

Section Stream.

(** [JSON.parse(data).choices?.[0]?.delta?.content] as a string: [None]
    when [JSON.parse] throws or the path leads to [undefined] or [null]. *)
Variable delta_content : string -> option string.

(** The body of [for (const line of lines)]: the [onChunk] call of a line,
    if it makes one. *)
Definition line_chunk (line : string) : option string :=
  if prefix "data: " line then
    let data := drop 6 line in
    if data =? "[DONE]" then None
    else match delta_content data with
         | Some t => if truthy t then Some t else None
         | None => None
         end
  else None.

Definition keep {A : Type} (o : option A) : list A :=
  match o with
  | Some a => [a]
  | None => []
  end.

(** The [onChunk] calls made while one read is processed. *)
Definition read_chunks (chunk : string) : list string :=
  flat_map (fun line => keep (line_chunk line)) (split_lines chunk).

(** The [while (true)] loop. *)
Definition stream_chunks (rs : list string) : list string :=
  flat_map read_chunks rs.

Definition streamFromGemini (env : Env) (prompt : string)
    (imageBase64 : option string) (chatHistory : list Message) : Outcome :=
  if key_missing (apiKey env) then
    mkOutcome None [missing_key_text] Fulfilled
  else
    let req := build_request prompt imageBase64 chatHistory in
    match fetch env with
    | FetchRejected msg =>
        mkOutcome (Some req) [caught_text msg] Fulfilled
    | FetchResponse r =>
        if negb (ok r) then
          mkOutcome (Some req) [status_text r] Fulfilled
        else
          match body r with
          | None => mkOutcome (Some req) ["Error: No response stream"] Fulfilled
          | Some b =>
              match ending b with
              | StreamDone =>
                  mkOutcome (Some req) (stream_chunks (reads b)) Fulfilled
              | StreamError msg =>
                  mkOutcome (Some req)
                    (stream_chunks (reads b) ++ [caught_text msg]) Fulfilled
              end
          end
    end.

(** The failures of a request that has been issued, each with what had been
    delivered before it and the text it is reported with: the request is
    rejected, the status is not a success, a read of the stream fails. *)
Inductive failure (env : Env) : list string -> string -> Prop :=
| request_rejected msg :
    fetch env = FetchRejected msg ->
    failure env [] (caught_text msg)
| bad_status r :
    fetch env = FetchResponse r -> ok r = false ->
    failure env [] (status_text r)
| read_failed r b msg :
    fetch env = FetchResponse r -> ok r = true -> body r = Some b ->
    ending b = StreamError msg ->
    failure env (stream_chunks (reads b)) (caught_text msg).

(** [sendToGemini]: the chunks are gathered in [result], which the promise
    is fulfilled with; no history is passed.  With the request issued. *)
Definition sendToGemini (env : Env) (prompt : string) (imageBase64 : option string)
    : (string + string) * option Request :=
  let out := streamFromGemini env prompt imageBase64 [] in
  let result := fold_left append (calls out) "" in
  (match settled out with
   | Fulfilled => inl result
   | Rejected msg => inr msg
   end,
   request out).

End Stream.

End Gemini.

(* ================================================================== *)
(** ** components/GeminiChat.tsx *)
(* ================================================================== *)

Module GeminiChat.

Import Js Gemini.

(** The component's state together with the two things it acts on: the
    [localStorage] entry under [STORAGE_KEY] (held as the array its JSON text
    denotes; [JSON.stringify] omits the fields that are [undefined], so
    parsing gives the messages back) and the requests handed to [fetch]. *)
Record World := mkWorld {
  messages : list Message;
  messagesRef : list Message;
  input : string;
  isLoading : bool;
  pendingImage : option string;
  storage : option (list Message);
  sent : list Request
}.

Definition set_messages (v : list Message) (w : World) : World :=
  mkWorld v (messagesRef w) (input w) (isLoading w) (pendingImage w) (storage w) (sent w).
Definition set_messagesRef (v : list Message) (w : World) : World :=
  mkWorld (messages w) v (input w) (isLoading w) (pendingImage w) (storage w) (sent w).
Definition set_input (v : string) (w : World) : World :=
  mkWorld (messages w) (messagesRef w) v (isLoading w) (pendingImage w) (storage w) (sent w).
Definition set_isLoading (v : bool) (w : World) : World :=
  mkWorld (messages w) (messagesRef w) (input w) v (pendingImage w) (storage w) (sent w).
Definition set_pendingImage (v : option string) (w : World) : World :=
  mkWorld (messages w) (messagesRef w) (input w) (isLoading w) v (storage w) (sent w).
Definition set_storage (v : option (list Message)) (w : World) : World :=
  mkWorld (messages w) (messagesRef w) (input w) (isLoading w) (pendingImage w) v (sent w).
Definition set_sent (v : list Request) (w : World) : World :=
  mkWorld (messages w) (messagesRef w) (input w) (isLoading w) (pendingImage w) (storage w) v.

(** [setMessages(prev => f(prev))] *)
Definition setMessages (f : list Message -> list Message) (w : World) : World :=
  set_messages (f (messages w)) w.

(** The effect on [[messages]], run after the render that follows an update:
    the ref follows the state, and the committed messages are written to
    storage unless there are none. *)
Definition effect_messages (w : World) : World :=
  let toSave := filter committed (messages w) in
  let w := set_messagesRef (messages w) w in
  if (0 <? List.length toSave)%nat then set_storage (Some toSave) w else w.

(** A component instance that has just been created over the given storage. *)
Definition fresh (st : option (list Message)) (rq : list Request) : World :=
  mkWorld [] [] "" false None st rq.

(** The mount effect and the render it causes: the saved array, if there is
    one, becomes the message list. *)
Definition mount (st : option (list Message)) (rq : list Request) : World :=
  match st with
  | Some parsed => effect_messages (set_messages parsed (fresh st rq))
  | None => effect_messages (fresh st rq)
  end.

Definition assistantMessage : Message := mkMessage Assistant "" None (Some true).

Definition userMessage (messageText : string) (imageToSend : option string) : Message :=
  mkMessage User (or_else messageText "Analyze this image") imageToSend None.

(** [{ ...m, content: fullResponse }] *)
Definition with_content (fullResponse : string) (m : Message) : Message :=
  mkMessage (role m) fullResponse (imageData m) (isStreaming m).

(** [{ ...m, isStreaming: false }] *)
Definition with_done (m : Message) : Message :=
  mkMessage (role m) (content m) (imageData m) (Some false).

(** The message built by the [catch] block of [handleSend]. *)
Definition errorMessage (msg : string) : Message :=
  mkMessage Assistant ("Error: " ++ msg) None (Some false).

(** [handleSend] up to the call of [streamFromGemini]. *)
Definition send_begin (messageText : string) (imageToSend : option string)
    (w : World) : World :=
  let w := setMessages (fun prev => prev ++ [userMessage messageText imageToSend]) w in
  let w := set_input "" w in
  let w := set_isLoading true w in
  let w := set_pendingImage None w in
  let w := setMessages (fun prev => prev ++ [assistantMessage]) w in
  effect_messages w.

(** The update made by the callback once [fullResponse] has grown. *)
Definition on_chunk (fullResponse : string) (w : World) : World :=
  effect_messages (setMessages (map_last (with_content fullResponse)) w).

(** The update after [await streamFromGemini(...)] returns. *)
Definition send_done (w : World) : World :=
  effect_messages (setMessages (map_last with_done) w).

(** The update of the [catch] block. *)
Definition send_failed (msg : string) (w : World) : World :=
  effect_messages (setMessages (map_last (fun _ => errorMessage msg)) w).

(** The callback applied to the successive chunks; the first component is
    the closure variable [fullResponse]. *)
Fixpoint deliver (cs : list string) (fullResponse : string) (w : World)
    : string * World :=
  match cs with
  | [] => (fullResponse, w)
  | c :: r =>
      let fullResponse := (fullResponse ++ c)%string in
      deliver r fullResponse (on_chunk fullResponse w)
  end.

Definition record_request (r : option Request) (w : World) : World :=
  match r with
  | Some q => set_sent (sent w ++ [q]) w
  | None => w
  end.

(** The guard of [handleSend] lets the call through. *)
Definition accepted (t : string) (i : option string) : Prop :=
  negb (truthy t) && negb (truthy_opt i) = false.

Definition handleClear (w : World) : World :=
  let w := set_messages [] w in
  let w := set_pendingImage None w in
  let w := set_storage None w in
  effect_messages w.

Section Component.

Variable delta_content : string -> option string.

Definition handleSend (env : Env) (messageText : string)
    (imageToSend : option string) (w : World) : World :=
  if negb (truthy messageText) && negb (truthy_opt imageToSend) then w
  else
    let currentHistory := filter committed (messagesRef w) in
    let w := send_begin messageText imageToSend w in
    let out := streamFromGemini delta_content env
                 (or_else messageText "Analyze this image.")
                 imageToSend currentHistory in
    let w := record_request (request out) w in
    let w := snd (deliver (calls out) "" w) in
    let w := match settled out with
             | Fulfilled => send_done w
             | Rejected msg => send_failed msg w
             end in
    set_isLoading false w.

(** [handleManualSend]; [trim] is the text field's value without the
    white space around it. *)
Definition handleManualSend (trim : string -> string) (env : Env) (w : World) : World :=
  let text := trim (input w) in
  if truthy text || truthy_opt (pendingImage w)
  then handleSend env (or_else text "Analyze this image") (pendingImage w) w
  else w.

End Component.

(** *** The session, one update at a time

    The same updates, taken one by one, with the streams that are being
    read.  [inflight] holds the closure variable [fullResponse] of every
    pending [handleSend], oldest first.  [handleSend] has no guard of its
    own: a send may begin while another is pending, and every pending send
    writes to the last message of the list. *)
Record Session := mkSession {
  world : World;
  inflight : list string
}.

Definition replace_at {A : Type} (k : nat) (v : A) (l : list A) : list A :=
  firstn k l ++ v :: skipn (S k) l.

Definition remove_at {A : Type} (k : nat) (l : list A) : list A :=
  firstn k l ++ skipn (S k) l.

Inductive step : Session -> Session -> Prop :=
| step_reload s :
    (* the page is loaded again: a new instance over the same storage *)
    step s (mkSession (mount (storage (world s)) (sent (world s))) [])
| step_begin s messageText imageToSend rq :
    accepted messageText imageToSend ->
    step s (mkSession
              (record_request rq (send_begin messageText imageToSend (world s)))
              (inflight s ++ [""%string]))
| step_chunk s k acc c :
    nth_error (inflight s) k = Some acc ->
    step s (mkSession (on_chunk (acc ++ c) (world s))
                      (replace_at k (acc ++ c)%string (inflight s)))
| step_done s k acc :
    nth_error (inflight s) k = Some acc ->
    step s (mkSession (set_isLoading false (send_done (world s)))
                      (remove_at k (inflight s)))
| step_failed s k acc msg :
    nth_error (inflight s) k = Some acc ->
    step s (mkSession (set_isLoading false (send_failed msg (world s)))
                      (remove_at k (inflight s)))
| step_clear s :
    step s (mkSession (handleClear (world s)) (inflight s)).

(** The first load: nothing stored, nothing sent. *)
Definition initial : Session := mkSession (mount None []) [].

Inductive reachable : Session -> Prop :=
| reach_initial : reachable initial
| reach_step s s' : reachable s -> step s s' -> reachable s'.

(** The states reached when no send begins while another is pending: at
    most one send is pending at any time.  This is how the text field and the
    Send button, disabled while [isLoading], let the user send. *)
Inductive serial : Session -> Prop :=
| serial_initial : serial initial
| serial_step s s' :
    serial s -> step s s' -> (List.length (inflight s') <= 1)%nat -> serial s'.

Definition all_committed (l : list Message) : Prop := forallb committed l = true.

(** What is stored is committed. *)
Definition stored_committed (w : World) : Prop :=
  match storage w with
  | Some l => all_committed l
  | None => True
  end.

(** Only the last message of the list may be streaming, and only while a
    send is pending; what is stored is committed. *)
Definition consistent (s : Session) : Prop :=
  all_committed (removelast (messages (world s)))
  /\ (inflight s = [] -> all_committed (messages (world s)))
  /\ stored_committed (world s).

(** The last message is an answer that is no longer streaming and whose
    content is not empty and does not begin with the text [partial] that had
    been delivered: an error text that stands alone. *)
Definition error_only (partial : string) (w : World) : Prop :=
  exists l m,
    messages w = l ++ [m]
    /\ content m <> ""
    /\ isStreaming m = Some false
    /\ prefix partial (content m) = false.

(** "At most one message is streaming, and it is the last one." *)
Definition one_streaming_last (l : list Message) : Prop :=
  (List.length (filter streaming l) <= 1)%nat /\
  forall i m, nth_error l i = Some m -> streaming m = true -> S i = List.length l.

End GeminiChat.

(* ================================================================== *)
(** ** Regular expressions, as far as the viewer uses them *)
(* ================================================================== *)

Module Regex.

Local Open Scope N_scope.

(** A string of the page is a sequence of UTF-16 code units. *)
Definition jsstring := list N.

(** The code units of a string of ASCII characters. *)
Definition units (s : string) : jsstring := map N_of_ascii (list_ascii_of_string s).

(** White space and line terminators: what [trim] removes and [\s] matches. *)
Definition is_space (c : N) : bool :=
  ((9 <=? c) && (c <=? 13)) || (c =? 32) || (c =? 160) || (c =? 5760)
  || ((8192 <=? c) && (c <=? 8202)) || (c =? 8232) || (c =? 8233)
  || (c =? 8239) || (c =? 8287) || (c =? 12288) || (c =? 65279).

Fixpoint trim_start (s : jsstring) : jsstring :=
  match s with
  | c :: r => if is_space c then trim_start r else s
  | [] => []
  end.

Definition trim (s : jsstring) : jsstring := rev (trim_start (rev (trim_start s))).

(** Upper-case form of a code unit, for the comparison the [i] flag asks
    for.  Listed are the code units whose upper-case form can be that of a
    member of a class of the pattern below (Latin letters; Greek small
    letters, with final sigma, the beta symbol and the pi symbol); every
    other code unit is compared as it is. *)
Definition to_upper (c : N) : N :=
  if (97 <=? c) && (c <=? 122) then c - 32
  else if c =? 962 then 931
  else if (945 <=? c) && (c <=? 969) then c - 32
  else if c =? 976 then 914
  else if c =? 982 then 928
  else c.

Inductive re :=
| Void
| Eps
| Class (ranges : list (N * N))      (* [...], a list of ranges lo-hi *)
| Space                              (* \s *)
| Seq (a b : re)
| Alt (a b : re)
| Star (a : re).

(** [a+] *)
Definition Plus (a : re) : re := Seq a (Star a).

Definition one (c : N) : N * N := (c, c).

(** The members of a range. *)
Definition members (r : N * N) : list N :=
  let (lo, hi) := r in
  map (fun k => lo + N.of_nat k) (seq 0 (N.to_nat (hi + 1 - lo))).

(** Does the code unit belong to the class?  With [ignoreCase], when its
    upper-case form is that of a member. *)
Definition in_class (ignoreCase : bool) (ranges : list (N * N)) (c : N) : bool :=
  existsb (fun r =>
             ((fst r <=? c) && (c <=? snd r))
             || (ignoreCase && existsb (fun m => to_upper m =? to_upper c) (members r)))
          ranges.

Fixpoint nullable (r : re) : bool :=
  match r with
  | Void => false
  | Eps => true
  | Class _ => false
  | Space => false
  | Seq a b => nullable a && nullable b
  | Alt a b => nullable a || nullable b
  | Star _ => true
  end.

(** What remains to be matched once [c] has been read. *)
Fixpoint deriv (ignoreCase : bool) (c : N) (r : re) : re :=
  match r with
  | Void => Void
  | Eps => Void
  | Class ranges => if in_class ignoreCase ranges c then Eps else Void
  | Space => if is_space c then Eps else Void
  | Seq a b =>
      if nullable a
      then Alt (Seq (deriv ignoreCase c a) b) (deriv ignoreCase c b)
      else Seq (deriv ignoreCase c a) b
  | Alt a b => Alt (deriv ignoreCase c a) (deriv ignoreCase c b)
  | Star a => Seq (deriv ignoreCase c a) (Star a)
  end.

(** Does some prefix of [s] match? *)
Fixpoint matches_prefix (ignoreCase : bool) (r : re) (s : jsstring) : bool :=
  nullable r ||
  match s with
  | [] => false
  | c :: t => matches_prefix ignoreCase (deriv ignoreCase c r) t
  end.

(** [r.test(s)]: does the pattern match somewhere in [s]? *)
Fixpoint test (ignoreCase : bool) (r : re) (s : jsstring) : bool :=
  matches_prefix ignoreCase r s ||
  match s with
  | [] => false
  | _ :: t => test ignoreCase r t
  end.

End Regex.

(* ================================================================== *)
(** ** Numbers *)
(* ================================================================== *)

(** The numbers of a page (pointer positions, lengths, scales) are IEEE
    doubles: the kernel's binary64 floats, whose [sub], [mul], [div], [abs]
    and [ltb] are those of the JavaScript operators. *)
Module Number.

Import Floats.

Definition ten : float := 10%float.

(** [Math.min(a, b)]: NaN if one of the two is, and -0 below +0. *)
Definition min (a b : float) : float :=
  if PrimFloat.is_nan a || PrimFloat.is_nan b then PrimFloat.nan
  else if PrimFloat.ltb a b then a
  else if PrimFloat.ltb b a then b
  else if PrimFloat.get_sign a then a else b.

(** The rational that a finite number is; nothing for NaN and the
    infinities. *)
Definition value (f : float) : option Q :=
  match Prim2SF f with
  | S754_zero _ => Some (Qmake 0 1)
  | S754_finite s m e =>
      let n := if s then Z.neg m else Z.pos m in
      Some (Qred (match e with
                  | Z0 => Qmake n 1
                  | Zpos k => Qmake (n * 2 ^ Zpos k)%Z 1
                  | Zneg k => Qmake n (2 ^ k)%positive
                  end))
  | _ => None
  end.

(** The integer part of a number (toward zero); 0 for NaN and the
    infinities. *)
Definition trunc (f : float) : Z :=
  match Prim2SF f with
  | S754_finite s m e =>
      let v := match e with
               | Z0 => Z.pos m
               | Zpos k => (Z.pos m * 2 ^ Zpos k)%Z
               | Zneg k => (Z.pos m / 2 ^ Zpos k)%Z
               end in
      if s then (- v)%Z else v
  | _ => 0%Z
  end.

(** The number that an integer is (the nearest one, beyond 2^53). *)
Definition of_Z (z : Z) : float := SF2Prim (binary_normalize prec emax z 0 false).

End Number.

(* ================================================================== *)
(** ** components/PDFViewer.tsx: selections *)
(* ================================================================== *)

Module Viewer.

Import Regex.

Inductive SelectionType := TextSel | ImageSel | EquationSel | RegionSel.

(** The [rect] of a selection or of an annotation: four finite numbers,
    held as the rationals they are (what a JSON text can hold). *)
Record Rect := mkRect {
  x : Q;
  y : Q;
  width : Q;
  height : Q
}.

(** Four numbers as [handleMouseUp] computes them. *)
Record NumRect := mkNumRect {
  nx : PrimFloat.float;
  ny : PrimFloat.float;
  nwidth : PrimFloat.float;
  nheight : PrimFloat.float
}.

(** The image of a region, held as the temporary canvas that
    [toDataURL] encodes: its size in pixels, and the block of the page
    canvas that [drawImage] was asked to scale into it. *)
Record Image := mkImage {
  img_width : Z;
  img_height : Z;
  source : NumRect
}.

Record Selection := mkSelection {
  type : SelectionType;
  content : jsstring;
  pageNumber : nat;
  imageData : option Image;
  rect : option Rect
}.

Record DragRect := mkDragRect {
  startX : PrimFloat.float;
  startY : PrimFloat.float;
  endX : PrimFloat.float;
  endY : PrimFloat.float;
  pageNum : nat
}.

(** The [canvas] element of a page: the size of its pixel buffer and the
    size it is displayed at. *)
Record Canvas := mkCanvas {
  canvas_width : Z;
  canvas_height : Z;
  clientWidth : Z;
  clientHeight : Z
}.

(** [pageRefs.current.get(n)] followed by [querySelector("canvas")]. *)
Inductive PageDiv :=
| NoCanvas
| WithCanvas (c : Canvas).

Record Dom := mkDom {
  pageRefs : nat -> option PageDiv;
  context2d : bool                   (* tempCanvas.getContext("2d") is not null *)
}.

(** [interface Annotation].  [status] is held as the string it is at run
    time: a restored record keeps whatever status it was saved with. *)
Record Annotation := mkAnnotation {
  id : string;
  a_pageNumber : nat;
  a_rect : Rect;
  status : string;
  note : option string;
  a_content : jsstring;
  createdAt : N
}.

(** An element of the array saved under [ANNOTATIONS_KEY]: the fields of an
    annotation, except that a record of an older shape has no [rect]. *)
Record Stored := mkStored {
  s_id : string;
  s_pageNumber : nat;
  s_rect : option Rect;
  s_status : string;
  s_note : option string;
  s_content : jsstring;
  s_createdAt : N
}.

(** The component's state, with the calls made to [onSelectionChange]
    (oldest first) and the [localStorage] entry under [ANNOTATIONS_KEY]
    (held as the array its JSON text denotes). *)
Record State := mkState {
  selection : option Selection;
  isSelecting : bool;
  selectionRect : option DragRect;
  annotations : list Annotation;
  filterStatus : string;
  emitted : list (option Selection);
  stored : option (list Stored)
}.

Definition set_selection (v : option Selection) (st : State) : State :=
  mkState v (isSelecting st) (selectionRect st) (annotations st) (filterStatus st)
          (emitted st) (stored st).
Definition set_isSelecting (v : bool) (st : State) : State :=
  mkState (selection st) v (selectionRect st) (annotations st) (filterStatus st)
          (emitted st) (stored st).
Definition set_selectionRect (v : option DragRect) (st : State) : State :=
  mkState (selection st) (isSelecting st) v (annotations st) (filterStatus st)
          (emitted st) (stored st).
Definition set_annotations (v : list Annotation) (st : State) : State :=
  mkState (selection st) (isSelecting st) (selectionRect st) v (filterStatus st)
          (emitted st) (stored st).
Definition set_stored (v : option (list Stored)) (st : State) : State :=
  mkState (selection st) (isSelecting st) (selectionRect st) (annotations st)
          (filterStatus st) (emitted st) v.

(** [onSelectionChange(v)] *)
Definition onSelectionChange (v : option Selection) (st : State) : State :=
  mkState (selection st) (isSelecting st) (selectionRect st) (annotations st)
          (filterStatus st) (emitted st ++ [v]) (stored st).

(** The pattern of [handleTextSelection]:
    [[∫∑∏√±×÷=<>≤≥≠∞αβγδπ]|[0-9]+[x²³]|[a-z]\s*[=+\-*/^]\s*[a-z0-9]] *)
Definition math_symbols : re :=
  Class (map one [8747; 8721; 8719; 8730; 177; 215; 247; 61; 60; 62;
                  8804; 8805; 8800; 8734; 945; 946; 947; 948; 960]%N).
Definition digit : re := Class [(48, 57)%N].
Definition exponent : re := Class (map one [120; 178; 179]%N).
Definition letter : re := Class [(97, 122)%N].
Definition operator : re := Class (map one [61; 43; 45; 42; 47; 94]%N).
Definition alnum : re := Class [(97, 122)%N; (48, 57)%N].

Definition math_pattern : re :=
  Alt math_symbols
    (Alt (Seq (Plus digit) exponent)
         (Seq letter (Seq (Star Space) (Seq operator (Seq (Star Space) alnum))))).

Definition isMath (selectedText : jsstring) : bool := test true math_pattern selectedText.

(** The signs of the first class of the pattern. *)
Definition signs : list N :=
  [8747; 8721; 8719; 8730; 177; 215; 247; 61; 60; 62;
   8804; 8805; 8800; 8734; 945; 946; 947; 948; 960]%N.

(** The [type] given to a text selection. *)
Definition classify (selectedText : jsstring) : SelectionType :=
  if isMath selectedText then EquationSel else TextSel.

(** [handleTextSelection]; the argument is [window.getSelection()?.toString()]. *)
Definition handleTextSelection (sel : option jsstring) (st : State) : State :=
  match option_map trim sel with
  | Some ((_ :: _) as selectedText) =>
      let newSelection := mkSelection (classify selectedText) selectedText 1 None None in
      onSelectionChange (Some newSelection) (set_selection (Some newSelection) st)
  | _ => st
  end.

(** [a > b] on numbers. *)
Definition gt (a b : PrimFloat.float) : bool := PrimFloat.ltb b a.

(** [width > 10 && height > 10] *)
Definition above_threshold (b : NumRect) : bool :=
  gt (nwidth b) Number.ten && gt (nheight b) Number.ten.

(** The conversion of a number to an unsigned long: its integer part
    modulo 2^32 (0 for NaN and the infinities). *)
Definition to_unsigned_long (f : PrimFloat.float) : Z :=
  (Number.trunc f mod 2 ^ 32)%Z.

(** Assignment to the [width] or [height] of a canvas: the unsigned long of
    the number, or the default of the attribute when that is above
    2^31 - 1. *)
Definition canvas_size (default : Z) (f : PrimFloat.float) : Z :=
  let v := to_unsigned_long f in
  if (v <=? 2147483647)%Z then v else default.

(** [Math.round] of a finite number. *)
Definition round (f : PrimFloat.float) : option Z :=
  option_map (fun q => Qfloor (q + (1 # 2))%Q) (Number.value f).

Definition scaleX (c : Canvas) : PrimFloat.float :=
  PrimFloat.div (Number.of_Z (canvas_width c)) (Number.of_Z (clientWidth c)).
Definition scaleY (c : Canvas) : PrimFloat.float :=
  PrimFloat.div (Number.of_Z (canvas_height c)) (Number.of_Z (clientHeight c)).

(** The rectangle of a drag: [x], [y], [width], [height] of [handleMouseUp]. *)
Definition normalize (d : DragRect) : NumRect :=
  mkNumRect (Number.min (startX d) (endX d)) (Number.min (startY d) (endY d))
            (PrimFloat.abs (PrimFloat.sub (endX d) (startX d)))
            (PrimFloat.abs (PrimFloat.sub (endY d) (startY d))).

(** The four numbers as a [rect], when they are finite.  The lengths of a
    drag are: pointer positions are finite and far below the largest
    double. *)
Definition to_rect (b : NumRect) : option Rect :=
  match Number.value (nx b), Number.value (ny b),
        Number.value (nwidth b), Number.value (nheight b) with
  | Some x, Some y, Some w, Some h => Some (mkRect x y w h)
  | _, _, _, _ => None
  end.

(** The temporary canvas after [drawImage]. *)
Definition capture (c : Canvas) (b : NumRect) : Image :=
  mkImage (canvas_size 300 (nwidth b)) (canvas_size 150 (nheight b))
          (mkNumRect (PrimFloat.mul (nx b) (scaleX c)) (PrimFloat.mul (ny b) (scaleY c))
                     (PrimFloat.mul (nwidth b) (scaleX c))
                     (PrimFloat.mul (nheight b) (scaleY c))).

Definition region_content (n : nat) : jsstring :=
  units "Region from Page " ++ units (Js.of_nat n).

(** The selection [handleMouseUp] makes of a drag, if it makes one.  The
    [rect] of a selection holds finite numbers; a rectangle with a NaN or an
    infinity, which the differences of pointer positions never give, has no
    selection here. *)
Definition region_selection (dom : Dom) (d : DragRect) : option Selection :=
  match pageRefs dom (pageNum d) with
  | Some (WithCanvas canvas) =>
      let b := normalize d in
      if above_threshold b then
        if context2d dom then
          match to_rect b with
          | Some r =>
              Some (mkSelection RegionSel (region_content (pageNum d)) (pageNum d)
                                (Some (capture canvas b)) (Some r))
          | None => None
          end
        else None
      else None
  | _ => None
  end.

Definition handleMouseUp (dom : Dom) (st : State) : State :=
  match isSelecting st, selectionRect st with
  | true, Some d =>
      let st :=
        match region_selection dom d with
        | Some newSelection =>
            onSelectionChange (Some newSelection) (set_selection (Some newSelection) st)
        | None => st
        end in
      set_selectionRect None (set_isSelecting false st)
  | _, _ => st
  end.

(** The fields of a mouse event that the handlers read. *)
Record MouseEvent := mkMouseEvent {
  ctrlKey : bool;
  button : nat;
  clientX : PrimFloat.float;
  clientY : PrimFloat.float
}.

(** [pageDiv.getBoundingClientRect()]: where the page is in the window. *)
Record Bounds := mkBounds {
  bounds_left : PrimFloat.float;
  bounds_top : PrimFloat.float
}.

(** [handleMouseDown]; [b] is the bounding rectangle of the page at the time
    of the event. *)
Definition handleMouseDown (dom : Dom) (b : Bounds) (e : MouseEvent) (n : nat)
    (st : State) : State :=
  if ctrlKey e || (button e =? 2)%nat then
    match pageRefs dom n with
    | Some _ =>
        let st := set_isSelecting true st in
        set_selectionRect
          (Some (mkDragRect (PrimFloat.sub (clientX e) (bounds_left b))
                            (PrimFloat.sub (clientY e) (bounds_top b))
                            (PrimFloat.sub (clientX e) (bounds_left b))
                            (PrimFloat.sub (clientY e) (bounds_top b)) n))
          st
    | None => st
    end
  else st.

Definition handleMouseMove (dom : Dom) (b : Bounds) (e : MouseEvent) (st : State) : State :=
  match isSelecting st, selectionRect st with
  | true, Some d =>
      match pageRefs dom (pageNum d) with
      | Some _ =>
          set_selectionRect
            (Some (mkDragRect (startX d) (startY d)
                              (PrimFloat.sub (clientX e) (bounds_left b))
                              (PrimFloat.sub (clientY e) (bounds_top b))
                              (pageNum d)))
            st
      | None => st
      end
  | _, _ => st
  end.

(** Where an event is on the page. *)
Definition at_page (m : Bounds * MouseEvent) : PrimFloat.float * PrimFloat.float :=
  (PrimFloat.sub (clientX (snd m)) (bounds_left (fst m)),
   PrimFloat.sub (clientY (snd m)) (bounds_top (fst m))).

(** The drag from a press to the last of the moves that follow it. *)
Definition gesture (press : Bounds * MouseEvent) (ms : list (Bounds * MouseEvent))
    (n : nat) : DragRect :=
  mkDragRect (fst (at_page press)) (snd (at_page press))
             (fst (at_page (last ms press))) (snd (at_page (last ms press))) n.

(** The moves of a drag, each with the bounds of the page at that time. *)
Definition moves (dom : Dom) (ms : list (Bounds * MouseEvent)) (st : State) : State :=
  fold_left (fun st m => handleMouseMove dom (fst m) (snd m) st) ms st.

Local Open Scope Q_scope.

(** [zoomIn], [zoomOut] and the scale a viewer starts with. *)
Definition zoomIn (prev : Q) : Q := Qmin (prev + (2 # 10)) (25 # 10).
Definition zoomOut (prev : Q) : Q := Qmax (prev - (2 # 10)) (5 # 10).
Definition initial_scale : Q := 12 # 10.

(** A press of one of the two zoom buttons. *)
Inductive Zoom := Closer | Farther.

Definition zoom (z : Zoom) (prev : Q) : Q :=
  match z with
  | Closer => zoomIn prev
  | Farther => zoomOut prev
  end.

Definition zooms (zs : list Zoom) (prev : Q) : Q := fold_left (fun s z => zoom z s) zs prev.

(** *** Annotations *)

Inductive Status := Complete | Incomplete | Pending | Note.

Definition status_name (s : Status) : string :=
  match s with
  | Complete => "complete"
  | Incomplete => "incomplete"
  | Pending => "pending"
  | Note => "note"
  end.

(** The element [JSON.stringify] writes for an annotation. *)
Definition stringify (a : Annotation) : Stored :=
  mkStored (id a) (a_pageNumber a) (Some (a_rect a)) (status a) (note a)
           (a_content a) (createdAt a).

(** [parsed.filter(a => a.rect)], the elements kept being the annotations
    of the new state. *)
Definition restore (parsed : list Stored) : list Annotation :=
  flat_map (fun a =>
              match s_rect a with
              | Some r => [mkAnnotation (s_id a) (s_pageNumber a) r (s_status a)
                                        (s_note a) (s_content a) (s_createdAt a)]
              | None => []
              end) parsed.

(** The effect on [[annotations]]: the collection is written whole, unless
    it is empty. *)
Definition effect_annotations (st : State) : State :=
  if (0 <? List.length (annotations st))%nat
  then set_stored (Some (map stringify (annotations st))) st
  else st.

(** A component instance that has just been created over the given storage,
    after its mount effect and the render that follows. *)
Definition mount (saved : option (list Stored)) : State :=
  let st := mkState None false None [] "all" [] saved in
  match saved with
  | Some parsed => effect_annotations (set_annotations (restore parsed) st)
  | None => effect_annotations st
  end.

(** [Date.now().toString()] *)
Definition timestamp_id (now : N) : string := NilEmpty.string_of_uint (N.to_uint now).

(** [addAnnotation] as a render made it: the callback closes over the
    [selection] of that render, here [captured], and over nothing else of
    the state.  [now] is the value of [Date.now()]. *)
Definition addAnnotationOf (captured : option Selection) (now : N) (s : Status)
    (nt : option string) (st : State) : State :=
  match captured with
  | Some sel =>
      match rect sel with
      | Some r =>
          if (pageNumber sel =? 0)%nat then st
          else
            let newAnnotation :=
              mkAnnotation (timestamp_id now) (pageNumber sel) r (status_name s) nt
                           (content sel) now in
            let st := set_annotations (annotations st ++ [newAnnotation]) st in
            let st := set_selection None st in
            let st := onSelectionChange None st in
            effect_annotations st
      | None => st
      end
  | None => st
  end.

(** [addAnnotation] as the latest render made it. *)
Definition addAnnotation (now : N) (s : Status) (nt : option string) (st : State) : State :=
  addAnnotationOf (selection st) now s nt st.

(** The effect on [[selection, addAnnotation]]: while there is a selection
    [window.addPdfAnnotation] is set to the callback of the render, and it
    is left as it was when there is none.  The callback is given by the
    selection it closes over; [None] is a global not yet assigned. *)
Definition effect_expose (st : State) (addPdfAnnotation : option Selection)
    : option Selection :=
  match selection st with
  | Some sel => Some sel
  | None => addPdfAnnotation
  end.

Definition deleteAnnotation (i : string) (st : State) : State :=
  let kept := filter (fun a => negb (id a =? i)%string) (annotations st) in
  let st := set_annotations kept st in
  let st := set_stored (Some (map stringify kept)) st in
  effect_annotations st.

(** One use of the annotation buttons: the selection the user has made, the
    button pressed, the note typed, and the clock. *)
Record Creation := mkCreation {
  c_selection : Selection;
  c_status : Status;
  c_note : option string;
  c_now : N
}.

(** The user selects, then annotates. *)
Definition create (c : Creation) (st : State) : State :=
  addAnnotation (c_now c) (c_status c) (c_note c)
                (set_selection (Some (c_selection c)) st).

Definition creates (cs : list Creation) (st : State) : State :=
  fold_left (fun st c => create c st) cs st.

(** The record [addAnnotation] builds, when it builds one: the selection
    must have a [rect] and a page number that is not 0. *)
Definition new_annotation (c : Creation) : list Annotation :=
  match rect (c_selection c) with
  | Some r =>
      if (pageNumber (c_selection c) =? 0)%nat then []
      else [mkAnnotation (timestamp_id (c_now c)) (pageNumber (c_selection c)) r
                         (status_name (c_status c)) (c_note c)
                         (content (c_selection c)) (c_now c)]
  | None => []
  end.

(** The state holds what a load of the storage would give. *)
Definition synced (st : State) : Prop :=
  annotations st = match stored st with Some l => restore l | None => [] end.

Definition getPageAnnotations (pageNum : nat) (st : State) : list Annotation :=
  filter (fun a =>
            if negb (a_pageNumber a =? pageNum)%nat then false
            else if (filterStatus st =? "all")%string then true
            else (status a =? filterStatus st)%string)
         (annotations st).

End Viewer.

(* ================================================================== *)
(** ** components/SelectionToolbar.tsx: marking a selection *)
(* ================================================================== *)

Module Toolbar.

Import Regex Viewer.

Inductive Mark := Correct | Wrong | Review.

Definition mark_name (m : Mark) : string :=
  match m with
  | Correct => "correct"
  | Wrong => "wrong"
  | Review => "review"
  end.

(** [saveAnnotation]: the record is pushed on the array saved under
    [ANNOTATIONS_KEY], the key the viewer uses; it has no [rect].  [now] is
    the value of [Date.now()]. *)
Definition saveAnnotation (now : N) (m : Mark) (nt : option string) (sel : Selection)
    (saved : option (list Stored)) : option (list Stored) :=
  let annotations := match saved with Some parsed => parsed | None => [] end in
  let newAnnotation :=
    mkStored (timestamp_id now) (pageNumber sel) None (mark_name m) nt
             (firstn 100 (content sel)) now in
  Some (annotations ++ [newAnnotation]).

End Toolbar.

(* ================================================================== *)
(** ** lib/db.ts *)
(* ================================================================== *)

Module Db.

Record PDF := mkPDF {
  id : nat;
  name : string;
  file_data : string;
  status : string;
  uploaded_at : string;
  updated_at : string
}.

(** A [PDF] without its [file_data]: the [rest] of [{ file_data, ...rest }]. *)
Record PDFInfo := mkPDFInfo {
  i_id : nat;
  i_name : string;
  i_status : string;
  i_uploaded_at : string;
  i_updated_at : string
}.

Record Annotation := mkAnnotation {
  a_id : nat;
  pdf_id : nat;
  a_content : string;
  a_status : string;
  a_note : option string;
  page_number : nat;
  selection_type : string;
  created_at : string
}.

Record Database := mkDatabase {
  pdfs : list PDF;
  annotations : list Annotation;
  nextPdfId : nat;
  nextAnnotationId : nat
}.

(** What [DB_FILE] holds. *)
Inductive File :=
| Missing
| Unreadable                  (* reading or parsing throws *)
| Holds (db : Database).

Definition loadDb (f : File) : Database :=
  match f with
  | Holds db => db
  | _ => mkDatabase [] [] 1 1
  end.

Definition saveDb (db : Database) : File := Holds db.

Definition with_file_data (bytes : string) (p : PDF) : PDF :=
  mkPDF (id p) (name p) bytes (status p) (uploaded_at p) (updated_at p).

Definition rest (p : PDF) : PDFInfo :=
  mkPDFInfo (id p) (name p) (status p) (uploaded_at p) (updated_at p).

Definition getAll (f : File) : list PDFInfo :=
  let db := loadDb f in
  map rest (pdfs db).

Definition getById (i : nat) (f : File) : option PDF :=
  let db := loadDb f in
  find (fun p => (id p =? i)%nat) (pdfs db).

(** [create]; [now] is [new Date().toISOString()].  The new file and the
    returned id. *)
Definition create (now : string) (nm fileData : string) (f : File) : File * nat :=
  let db := loadDb f in
  let newPdf := mkPDF (nextPdfId db) nm fileData "none" now now in
  (saveDb (mkDatabase (pdfs db ++ [newPdf]) (annotations db)
                      (S (nextPdfId db)) (nextAnnotationId db)),
   id newPdf).

Definition delete (i : nat) (f : File) : File :=
  let db := loadDb f in
  saveDb (mkDatabase (filter (fun p => negb (id p =? i)%nat) (pdfs db))
                     (filter (fun a => negb (pdf_id a =? i)%nat) (annotations db))
                     (nextPdfId db) (nextAnnotationId db)).

(** The object [find] returns is changed in place: the first element that
    satisfies [p] is replaced. *)
Fixpoint update_first {A : Type} (p : A -> bool) (f : A -> A) (l : list A) : list A :=
  match l with
  | [] => []
  | a :: r => if p a then f a :: r else a :: update_first p f r
  end.

Definition updateTimestamp (now : string) (i : nat) (f : File) : File :=
  let db := loadDb f in
  match find (fun p => (id p =? i)%nat) (pdfs db) with
  | Some _ =>
      saveDb (mkDatabase
                (update_first (fun p => (id p =? i)%nat)
                   (fun p => mkPDF (id p) (name p) (file_data p) (status p)
                                   (uploaded_at p) now)
                   (pdfs db))
                (annotations db) (nextPdfId db) (nextAnnotationId db))
  | None => f
  end.

Definition updateStatus (now : string) (i : nat) (st : string) (f : File) : File :=
  let db := loadDb f in
  match find (fun p => (id p =? i)%nat) (pdfs db) with
  | Some _ =>
      saveDb (mkDatabase
                (update_first (fun p => (id p =? i)%nat)
                   (fun p => mkPDF (id p) (name p) (file_data p) st (uploaded_at p) now)
                   (pdfs db))
                (annotations db) (nextPdfId db) (nextAnnotationId db))
  | None => f
  end.

Module annotationOps.

Definition getByPdfId (pdfId : nat) (f : File) : list Annotation :=
  let db := loadDb f in
  filter (fun a => (pdf_id a =? pdfId)%nat) (annotations db).

(** [create]; [now] is [new Date().toISOString()].  The new file and the
    returned id. *)
Definition create (now : string) (pdfId : nat) (content status : string)
    (note : option string) (pageNumber : nat) (selectionType : string) (f : File)
    : File * nat :=
  let db := loadDb f in
  let newAnnotation :=
    mkAnnotation (nextAnnotationId db) pdfId content status note pageNumber
                 selectionType now in
  (saveDb (mkDatabase (pdfs db) (annotations db ++ [newAnnotation])
                      (nextPdfId db) (S (nextAnnotationId db))),
   a_id newAnnotation).

Definition updateStatus (i : nat) (st : string) (f : File) : File :=
  let db := loadDb f in
  match find (fun a => (a_id a =? i)%nat) (annotations db) with
  | Some _ =>
      saveDb (mkDatabase (pdfs db)
                (update_first (fun a => (a_id a =? i)%nat)
                   (fun a => mkAnnotation (a_id a) (pdf_id a) (a_content a) st (a_note a)
                                          (page_number a) (selection_type a) (created_at a))
                   (annotations db))
                (nextPdfId db) (nextAnnotationId db))
  | None => f
  end.

Definition updateNote (i : nat) (note : string) (f : File) : File :=
  let db := loadDb f in
  match find (fun a => (a_id a =? i)%nat) (annotations db) with
  | Some _ =>
      saveDb (mkDatabase (pdfs db)
                (update_first (fun a => (a_id a =? i)%nat)
                   (fun a => mkAnnotation (a_id a) (pdf_id a) (a_content a) (a_status a)
                                          (Some note) (page_number a) (selection_type a)
                                          (created_at a))
                   (annotations db))
                (nextPdfId db) (nextAnnotationId db))
  | None => f
  end.

Definition delete (i : nat) (f : File) : File :=
  let db := loadDb f in
  saveDb (mkDatabase (pdfs db)
                     (filter (fun a => negb (a_id a =? i)%nat) (annotations db))
                     (nextPdfId db) (nextAnnotationId db)).

End annotationOps.

(** The keys in use are below the next one to give out, and no two
    elements have the same. *)
Definition fresh {A : Type} (key : A -> nat) (l : list A) (next : nat) : Prop :=
  Forall (fun a => (key a < next)%nat) l /\ NoDup (map key l).

(** So it is with the ids of the PDFs and with those of the annotations. *)
Definition fresh_ids (db : Database) : Prop :=
  fresh id (pdfs db) (nextPdfId db)
  /\ fresh a_id (annotations db) (nextAnnotationId db).

(** The calls that write the file. *)
Inductive Op :=
| Create (now name fileData : string)
| Delete (i : nat)
| UpdateTimestamp (now : string) (i : nat)
| UpdateStatus (now : string) (i : nat) (st : string)
| Annotate (now : string) (pdfId : nat) (content st : string) (note : option string)
           (pageNumber : nat) (selectionType : string)
| AnnotationStatus (i : nat) (st : string)
| AnnotationNote (i : nat) (note : string)
| AnnotationDelete (i : nat).

Definition run_op (f : File) (op : Op) : File :=
  match op with
  | Create now nm fileData => fst (create now nm fileData f)
  | Delete i => delete i f
  | UpdateTimestamp now i => updateTimestamp now i f
  | UpdateStatus now i st => updateStatus now i st f
  | Annotate now pdfId c st nt pg ty => fst (annotationOps.create now pdfId c st nt pg ty f)
  | AnnotationStatus i st => annotationOps.updateStatus i st f
  | AnnotationNote i nt => annotationOps.updateNote i nt f
  | AnnotationDelete i => annotationOps.delete i f
  end.

Definition run (ops : list Op) (f : File) : File := fold_left run_op ops f.

End Db.

(* ================================================================== *)
(** ** app/api/pdfs/[id]/route.ts *)
(* ================================================================== *)

Module Route.

Import Js.

(** The replies of the route: a PDF, an error with its status, or success. *)
Inductive Reply :=
| ReplyPdf (pdf : Db.PDF)
| ReplyError (error : string) (status : nat)
| ReplySuccess.

(** The body of a PATCH request: what [request.json()] gives.  [NoObject]
    when it throws or gives [null]; otherwise the [status] property of the
    value, when it is a string. *)
Inductive PatchBody :=
| NoObject
| StatusField (status : option string).

Definition statuses : list string := ["none"; "complete"; "incomplete"; "ongoing"].

(** [GET]; [i] is [parseInt(id)] and [now] the time of the call. *)
Definition GET (now : string) (i : nat) (f : Db.File) : Db.File * Reply :=
  match Db.getById i f with
  | None => (f, ReplyError "PDF not found" 404)
  | Some pdf => (Db.updateTimestamp now i f, ReplyPdf pdf)
  end.

Definition DELETE (i : nat) (f : Db.File) : Db.File * Reply :=
  (Db.delete i f, ReplySuccess).

Definition PATCH (now : string) (i : nat) (body : PatchBody) (f : Db.File)
    : Db.File * Reply :=
  match body with
  | NoObject => (f, ReplyError "Failed to update PDF" 500)
  | StatusField None => (f, ReplyError "Invalid status" 400)
  | StatusField (Some status) =>
      if negb (truthy status) || negb (existsb (String.eqb status) statuses)
      then (f, ReplyError "Invalid status" 400)
      else (Db.updateStatus now i status f, ReplySuccess)
  end.

End Route.

(* ================================================================== *)
(** ** Sample data *)
(* ================================================================== *)

Module Samples.

Import Js Gemini GeminiChat.

(** A decoder for tests: the payload of an event is its text. *)
Definition plain_delta (data : string) : option string := Some data.

Definition event (t : string) : string := "data: " ++ t ++ nl.

(** A stream of three events in two reads, closed by the end marker. *)
Definition hello_reads : list string :=
  [(event "Hel" ++ event "lo ")%string; (event "world" ++ event "[DONE]")%string].

Definition good_env (rs : list string) : Env :=
  mkEnv (Some "sk-test") (FetchResponse (mkResponse true 200 "" (Some (mkBody rs StreamDone)))).

(** The connection breaks after the first event. *)
Definition broken_env : Env :=
  mkEnv (Some "sk-test")
        (FetchResponse (mkResponse true 200 "" (Some (mkBody [event "Hel"] (StreamError "boom"))))).

Definition refused_env : Env := mkEnv (Some "sk-test") (FetchRejected "Failed to fetch").

Definition overloaded_env : Env :=
  mkEnv (Some "sk-test") (FetchResponse (mkResponse false 503 "overloaded" None)).

Definition first_load : World := mount None [].

(** [n] completed turns, each answered with "ok". *)
Fixpoint turns (n : nat) (w : World) : World :=
  match n with
  | O => w
  | S k => turns k (handleSend plain_delta (good_env [event "ok"]) "question" None w)
  end.

(** [n] completed turns, the k-th asking "question k" and answered
    "answer k". *)
Fixpoint dialogue (n : nat) (w : World) : World :=
  match n with
  | O => w
  | S k =>
      handleSend plain_delta (good_env [event ("answer " ++ of_nat (S k))])
                 ("question " ++ of_nat (S k)) None (dialogue k w)
  end.

(** Texts of a page. *)
Definition integral : Regex.jsstring := 8747%N :: Regex.units "f(x)dx".
Definition sentence : Regex.jsstring := Regex.units "The cat sat".
Definition assignment : Regex.jsstring := Regex.units "x = 5".
Definition blank : Regex.jsstring := Regex.units "   ".

(** A page of 600 by 800 pixels on a display with two device pixels per pixel. *)
Definition retina : Viewer.Canvas := Viewer.mkCanvas 1200 1600 600 800.

Definition retina_dom : Viewer.Dom :=
  Viewer.mkDom (fun _ => Some (Viewer.WithCanvas retina)) true.

(** The same page when no 2d context can be had. *)
Definition contextless_dom : Viewer.Dom :=
  Viewer.mkDom (fun _ => Some (Viewer.WithCanvas retina)) false.

Import PrimFloat.

(** A drag of 100 by 50 pixels, and one of 5 by 5. *)
Definition wide_drag : Viewer.DragRect :=
  Viewer.mkDragRect 20%float 30%float 120%float 80%float 1.
Definition tiny_drag : Viewer.DragRect :=
  Viewer.mkDragRect 10%float 10%float 15%float 15%float 1.

(** A drag of 100.5 by 50.25 pixels. *)
Definition uneven_drag : Viewer.DragRect :=
  Viewer.mkDragRect 20%float 30%float 120.5%float 80.25%float 1.

(** A drag that starts one unit in the last place below 2 and ends at 12:
    the two places are more than 10 apart, and their difference is the
    double 10. *)
Definition edge_drag : Viewer.DragRect :=
  Viewer.mkDragRect 0x1.fffffffffffffp+0%float 10%float 12%float 40%float 1.

Definition dragging (d : Viewer.DragRect) : Viewer.State :=
  Viewer.mkState None true (Some d) [] "all" [] None.

(** A region selection, a text selection, and a saved record of an older
    shape. *)
Definition region : Viewer.Selection :=
  Viewer.mkSelection Viewer.RegionSel (Viewer.region_content 1) 1 None
                     (Some (Viewer.mkRect 20 30 100 50)).
Definition words : Viewer.Selection :=
  Viewer.mkSelection Viewer.TextSel sentence 1 None None.
Definition old_record : Viewer.Stored :=
  Viewer.mkStored "17" 1 None "correct" None sentence 17.

(** What a drag from (20, 30) to (120, 80) on page 1 selects. *)
Definition wide_region : Viewer.Selection :=
  Viewer.mkSelection Viewer.RegionSel (Viewer.region_content 1) 1
    (Some (Viewer.capture retina (Viewer.normalize wide_drag)))
    (Some (Viewer.mkRect 20 30 100 50)).

Definition three_creations : list Viewer.Creation :=
  [Viewer.mkCreation region Viewer.Complete None 1000;
   Viewer.mkCreation words Viewer.Note (Some "to read") 2000;
   Viewer.mkCreation region Viewer.Pending (Some "check") 3000].

Definition library : Db.File :=
  Db.Holds (Db.mkDatabase
              [Db.mkPDF 1 "a.pdf" "JVBERi0x" "none" "2025-01-01" "2025-01-02";
               Db.mkPDF 2 "b.pdf" "JVBERi0y" "ongoing" "2025-02-01" "2025-02-03"]
              [] 3 1).

End Samples.

(* ================================================================== *)
(** * Properties *)
(* ================================================================== *)

(** ** Lists and strings *)

Module JsFacts.

Import Js.

Lemma append_nil_r (s : string) : (s ++ "")%string = s.
Proof. induction s as [|c s IH]; simpl; [reflexivity | now rewrite IH]. Qed.

Lemma append_assoc (a b c : string) : ((a ++ b) ++ c)%string = (a ++ (b ++ c))%string.
Proof. induction a as [|ch a IH]; simpl; [reflexivity | now rewrite IH]. Qed.

Lemma join_app (l1 l2 : list string) : join (l1 ++ l2) = (join l1 ++ join l2)%string.
Proof.
  induction l1 as [|s l1 IH]; simpl; [reflexivity|].
  now rewrite IH, append_assoc.
Qed.

Lemma map_last_cons {A : Type} (f : A -> A) (a : A) (l : list A) :
  l <> [] -> map_last f (a :: l) = a :: map_last f l.
Proof. destruct l; [congruence | reflexivity]. Qed.

Lemma map_last_snoc {A : Type} (f : A -> A) (l : list A) (x : A) :
  map_last f (l ++ [x]) = l ++ [f x].
Proof.
  induction l as [|a l IH]; [reflexivity|].
  rewrite <- app_comm_cons, map_last_cons, IH; [reflexivity|].
  destruct l; discriminate.
Qed.

Lemma snoc_neq {A : Type} (l : list A) (x : A) : l ++ [x] <> l.
Proof.
  intro H. apply (f_equal (@List.length A)) in H.
  rewrite length_app in H. simpl in H. lia.
Qed.

Lemma slice_last_length {A : Type} (n : nat) (l : list A) :
  List.length (slice_last n l) = Nat.min (List.length l) n.
Proof. unfold slice_last. rewrite length_skipn. lia. Qed.

Lemma slice_last_short {A : Type} (n : nat) (l : list A) :
  (List.length l <= n)%nat -> slice_last n l = l.
Proof.
  intro H. unfold slice_last.
  replace (List.length l - n)%nat with 0%nat by lia. reflexivity.
Qed.

Lemma slice_last_suffix {A : Type} (n : nat) (l : list A) :
  firstn (List.length l - n) l ++ slice_last n l = l.
Proof. apply firstn_skipn. Qed.

Lemma truthy_nonempty (s : string) : truthy s = true <-> s <> "".
Proof.
  unfold truthy. rewrite negb_true_iff. apply String.eqb_neq.
Qed.

Lemma or_else_truthy (a b : string) : truthy a = true -> or_else a b = a.
Proof. unfold or_else. now intros ->. Qed.

End JsFacts.

(** ** The chat session *)

Module ChatFacts.

Import Js Gemini GeminiChat JsFacts.

(** *** What the updates leave alone *)

Lemma effect_messages_messages w : messages (effect_messages w) = messages w.
Proof. unfold effect_messages. now destruct (_ <? _)%nat. Qed.

Lemma effect_messages_ref w : messagesRef (effect_messages w) = messages w.
Proof. unfold effect_messages. now destruct (_ <? _)%nat. Qed.

Lemma effect_messages_sent w : sent (effect_messages w) = sent w.
Proof. unfold effect_messages. now destruct (_ <? _)%nat. Qed.

Lemma effect_messages_isLoading w : isLoading (effect_messages w) = isLoading w.
Proof. unfold effect_messages. now destruct (_ <? _)%nat. Qed.

Lemma effect_messages_storage w :
  storage (effect_messages w) = storage w \/
  storage (effect_messages w) = Some (filter committed (messages w)).
Proof. unfold effect_messages. destruct (_ <? _)%nat; simpl; auto. Qed.

Lemma set_isLoading_messages v w : messages (set_isLoading v w) = messages w.
Proof. reflexivity. Qed.

Lemma set_isLoading_sent v w : sent (set_isLoading v w) = sent w.
Proof. reflexivity. Qed.

Lemma set_isLoading_ref v w : messagesRef (set_isLoading v w) = messagesRef w.
Proof. reflexivity. Qed.

Lemma send_begin_messages t i w :
  messages (send_begin t i w) = (messages w ++ [userMessage t i]) ++ [assistantMessage].
Proof. unfold send_begin. now rewrite effect_messages_messages. Qed.

Lemma send_begin_sent t i w : sent (send_begin t i w) = sent w.
Proof. unfold send_begin. now rewrite effect_messages_sent. Qed.

Lemma on_chunk_messages acc w :
  messages (on_chunk acc w) = map_last (with_content acc) (messages w).
Proof. unfold on_chunk. now rewrite effect_messages_messages. Qed.

Lemma on_chunk_sent acc w : sent (on_chunk acc w) = sent w.
Proof. unfold on_chunk. now rewrite effect_messages_sent. Qed.

Lemma send_done_messages w : messages (send_done w) = map_last with_done (messages w).
Proof. unfold send_done. now rewrite effect_messages_messages. Qed.

Lemma send_done_ref w : messagesRef (send_done w) = messages (send_done w).
Proof. unfold send_done. now rewrite effect_messages_ref, effect_messages_messages. Qed.

Lemma send_done_sent w : sent (send_done w) = sent w.
Proof. unfold send_done. now rewrite effect_messages_sent. Qed.

Lemma send_failed_messages msg w :
  messages (send_failed msg w) = map_last (fun _ => errorMessage msg) (messages w).
Proof. unfold send_failed. now rewrite effect_messages_messages. Qed.

Lemma record_request_messages r w : messages (record_request r w) = messages w.
Proof. now destruct r. Qed.

Lemma record_request_sent r w : sent (record_request r w) = sent w ++ keep r.
Proof. destruct r; simpl; [reflexivity | now rewrite app_nil_r]. Qed.

Lemma deliver_sent cs : forall acc w, sent (snd (deliver cs acc w)) = sent w.
Proof.
  induction cs as [|c cs IH]; intros acc w; simpl; [reflexivity|].
  now rewrite IH, on_chunk_sent.
Qed.

(** The placeholder holds everything delivered so far. *)
Lemma deliver_messages cs : forall acc w l m,
  messages w = l ++ [m] -> content m = acc ->
  messages (snd (deliver cs acc w)) = l ++ [with_content (acc ++ join cs) m].
Proof.
  induction cs as [|c cs IH]; intros acc w l m Hw Hm; simpl.
  - rewrite Hw, append_nil_r. destruct m; simpl in *; subst; reflexivity.
  - rewrite (IH (acc ++ c)%string _ l (with_content (acc ++ c) m)).
    + now rewrite append_assoc.
    + now rewrite on_chunk_messages, Hw, map_last_snoc.
    + reflexivity.
Qed.

Section Component.

Variable delta_content : string -> option string.

Local Abbreviation streamFromGemini := (streamFromGemini delta_content).
Local Abbreviation handleSend := (handleSend delta_content).

(** [streamFromGemini] reports every failure through [onChunk]: its
    promise is never rejected, and the [catch] block of [handleSend] is
    never entered. *)
Lemma streamFromGemini_fulfilled env p i h :
  settled (streamFromGemini env p i h) = Fulfilled.
Proof.
  unfold Gemini.streamFromGemini.
  destruct (key_missing _); [reflexivity|].
  destruct (fetch env) as [msg|r]; [reflexivity|].
  destruct (negb (ok r)); [reflexivity|].
  destruct (body r) as [b|]; [|reflexivity].
  now destruct (ending b).
Qed.

Lemma streamFromGemini_request env p i h :
  key_missing (apiKey env) = false ->
  request (streamFromGemini env p i h) = Some (build_request p i h).
Proof.
  intro K. unfold Gemini.streamFromGemini. rewrite K.
  destruct (fetch env) as [msg|r]; [reflexivity|].
  destruct (negb (ok r)); [reflexivity|].
  destruct (body r) as [b|]; [|reflexivity].
  now destruct (ending b).
Qed.

(** What a send does, whatever the network does. *)
Lemma handleSend_messages env t i w :
  accepted t i ->
  let out := streamFromGemini env (or_else t "Analyze this image.") i
               (filter committed (messagesRef w)) in
  messages (handleSend env t i w)
  = messages w ++ [userMessage t i;
                   mkMessage Assistant (join (calls out)) None (Some false)].
Proof.
  intros G out. unfold GeminiChat.handleSend. rewrite G. cbv zeta. fold out.
  assert (F : settled out = Fulfilled) by apply streamFromGemini_fulfilled.
  rewrite F, set_isLoading_messages, send_done_messages.
  rewrite (deliver_messages (calls out) "" _ (messages w ++ [userMessage t i])
             assistantMessage).
  - rewrite map_last_snoc, <- app_assoc. reflexivity.
  - now rewrite record_request_messages, send_begin_messages.
  - reflexivity.
Qed.

Lemma handleSend_sent env t i w :
  accepted t i ->
  sent (handleSend env t i w)
  = sent w ++ keep (request (streamFromGemini env (or_else t "Analyze this image.") i
                               (filter committed (messagesRef w)))).
Proof.
  intros G. unfold GeminiChat.handleSend. rewrite G. cbv zeta.
  rewrite streamFromGemini_fulfilled, set_isLoading_sent, send_done_sent.
  now rewrite deliver_sent, record_request_sent, send_begin_sent.
Qed.

Lemma handleSend_ref env t i w :
  accepted t i ->
  messagesRef (handleSend env t i w) = messages (handleSend env t i w).
Proof.
  intros G. unfold GeminiChat.handleSend. rewrite G. cbv zeta.
  rewrite streamFromGemini_fulfilled, set_isLoading_messages, set_isLoading_ref.
  apply send_done_ref.
Qed.

Lemma handleSend_isLoading env t i w :
  accepted t i -> isLoading (handleSend env t i w) = false.
Proof.
  intros G. unfold GeminiChat.handleSend. now rewrite G.
Qed.

End Component.

End ChatFacts.

(** ** The chat session: what a send does *)

Module ChatSpec.

Import Js Gemini GeminiChat JsFacts ChatFacts.

Section Component.

Variable delta_content : string -> option string.

Local Abbreviation streamFromGemini := (streamFromGemini delta_content).
Local Abbreviation handleSend := (handleSend delta_content).
Local Abbreviation handleManualSend := (handleManualSend delta_content).
Local Abbreviation stream_chunks := (stream_chunks delta_content).
Local Abbreviation failure := (failure delta_content).

Lemma streamed_calls env p i h r b :
  key_missing (apiKey env) = false ->
  fetch env = FetchResponse r -> ok r = true -> body r = Some b ->
  ending b = StreamDone ->
  calls (streamFromGemini env p i h) = stream_chunks (reads b).
Proof.
  intros K F O B E. unfold Gemini.streamFromGemini.
  now rewrite K, F, O, B, E.
Qed.

Lemma failure_calls env p i h partial err :
  key_missing (apiKey env) = false ->
  failure env partial err ->
  calls (streamFromGemini env p i h) = partial ++ [err].
Proof.
  intros K F. unfold Gemini.streamFromGemini. rewrite K.
  destruct F as [msg F | r F O | r b msg F O B E].
  - now rewrite F.
  - now rewrite F, O.
  - now rewrite F, O, B, E.
Qed.

Lemma failure_text_nonempty env partial err : failure env partial err -> err <> "".
Proof. intros [msg F | r F O | r b msg F O B E]; discriminate. Qed.

(** C1. A send whose stream delivers the chunks c1..cn appends the user's
    message and exactly one Assistant message; once the stream has ended the
    content of that message is c1 ++ ... ++ cn, in the order of arrival, and
    its [isStreaming] flag is [false]. *)
Theorem send_appends_streamed_answer env t i w r b :
  accepted t i ->
  key_missing (apiKey env) = false ->
  fetch env = FetchResponse r -> ok r = true -> body r = Some b ->
  ending b = StreamDone ->
  let w' := handleSend env t i w in
  messages w'
  = messages w ++ [userMessage t i;
                   mkMessage Assistant (join (stream_chunks (reads b))) None (Some false)]
  /\ isLoading w' = false.
Proof.
  intros G K F O B E w'. subst w'. split.
  - rewrite handleSend_messages by assumption.
    now rewrite (streamed_calls _ _ _ _ r b).
  - now apply handleSend_isLoading.
Qed.

(** C2. A send made when the committed history (the messages that are not
    streaming) has length n hands to the endpoint one request.  Its entries
    are, in order, the last min(n, 10) messages of that history, each with
    its role, its content and its image if it has one, followed by the new
    user turn: the text of the prompt and the image attached to it. *)
Theorem send_transmits_window env t i w :
  accepted t i ->
  key_missing (apiKey env) = false ->
  messagesRef w = messages w ->
  let history := filter committed (messages w) in
  let n := List.length history in
  exists req,
    sent (handleSend env t i w) = sent w ++ [req]
    /\ map entry (req_messages req)
       = map (fun m => (role m, content m,
                        if truthy_opt (imageData m)
                        then option_map data_url (imageData m) else None))
             (skipn (n - Nat.min n 10) history)
         ++ [(User, or_else t "Analyze this image.",
              if truthy_opt i then option_map data_url i else None)]
    /\ List.length (req_messages req) = S (Nat.min n 10).
Proof.
  intros G K R history n.
  exists (build_request (or_else t "Analyze this image.") i history).
  split; [|split].
  - rewrite handleSend_sent by assumption.
    rewrite streamFromGemini_request by assumption.
    now rewrite R.
  - cbn [build_request req_messages]. unfold slice_last. fold n.
    replace (n - Nat.min n 10)%nat with (n - 10)%nat by lia.
    rewrite map_app, map_map. f_equal.
    + apply map_ext. intros m. unfold entry, entry_text, entry_image, encode, truthy_opt.
      destruct (imageData m) as [img|]; [|reflexivity]. now destruct (truthy img).
    + cbn [map]. unfold entry, entry_text, entry_image, encode_current, truthy_opt.
      destruct i as [img|]; [|reflexivity]. now destruct (truthy img).
  - simpl. rewrite length_app, length_map, slice_last_length. simpl. fold n. lia.
Qed.

(** C4, as the code has it.  When the request is rejected, the status is
    not a success, or a read of the stream fails, the placeholder ends up
    holding what had been delivered before the failure followed by a
    non-empty error text (nothing had been delivered in the first two
    cases, so the text stands alone there); its [isStreaming] flag is
    [false], and the next send on the session goes through as any other:
    it appends its own two messages and transmits the window of the history,
    the failed turn included. *)
Theorem failed_send_reports_error env t i w partial err :
  accepted t i ->
  key_missing (apiKey env) = false ->
  failure env partial err ->
  let w' := handleSend env t i w in
  err <> ""
  /\ messages w'
     = messages w ++ [userMessage t i;
                      mkMessage Assistant (join partial ++ err) None (Some false)]
  /\ isLoading w' = false
  /\ forall env' t' i',
       accepted t' i' ->
       key_missing (apiKey env') = false ->
       let history := filter committed (messages w') in
       let out := streamFromGemini env' (or_else t' "Analyze this image.") i' history in
       messages (handleSend env' t' i' w')
       = messages w' ++ [userMessage t' i';
                         mkMessage Assistant (join (calls out)) None (Some false)]
       /\ sent (handleSend env' t' i' w')
          = sent w' ++ [build_request (or_else t' "Analyze this image.") i' history].
Proof.
  intros G K F w'. subst w'.
  split; [now apply (failure_text_nonempty env partial)|].
  split; [|split].
  - rewrite handleSend_messages by assumption.
    rewrite (failure_calls env _ _ _ partial err) by assumption.
    now rewrite join_app; simpl; rewrite append_nil_r.
  - now apply handleSend_isLoading.
  - intros env' t' i' G' K' history out. subst history out.
    pose proof (handleSend_ref delta_content env t i w G) as R.
    set (w' := handleSend env t i w) in *.
    split.
    + rewrite (handleSend_messages delta_content env' t' i' w' G').
      now rewrite R.
    + rewrite (handleSend_sent delta_content env' t' i' w' G').
      rewrite streamFromGemini_request by assumption.
      now rewrite R.
Qed.

(** C10. A send with an empty text and no image does nothing: the message
    list, the stored history and the requests issued are what they were.
    So does the Send button when the field holds white space only. *)
Theorem empty_send_is_noop env w :
  handleSend env "" None w = w
  /\ handleSend env "" (Some "") w = w
  /\ forall trim,
       trim (input w) = "" -> truthy_opt (pendingImage w) = false ->
       handleManualSend trim env w = w.
Proof.
  split; [reflexivity|]. split; [reflexivity|].
  intros trim T P. unfold GeminiChat.handleManualSend. now rewrite T, P.
Qed.

End Component.

Import Samples.

Lemma send_appends_streamed_answer_hello :
  messages (handleSend plain_delta (good_env hello_reads) "Say hello" None first_load)
  = [userMessage "Say hello" None; mkMessage Assistant "Hello world" None (Some false)]
  /\ isLoading (handleSend plain_delta (good_env hello_reads) "Say hello" None first_load)
     = false.
Proof.
  exact (send_appends_streamed_answer plain_delta (good_env hello_reads) "Say hello" None
           first_load _ _ eq_refl eq_refl eq_refl eq_refl eq_refl eq_refl).
Defined.

Lemma send_transmits_window_thirteenth :
  List.length (messages (dialogue 12 first_load)) = 24%nat
  /\ exists req,
       sent (handleSend plain_delta (good_env [event "ok"]) "one more" None
               (dialogue 12 first_load))
       = sent (dialogue 12 first_load) ++ [req]
       /\ map entry (req_messages req)
          = [(User, "question 8", None); (Assistant, "answer 8", None);
             (User, "question 9", None); (Assistant, "answer 9", None);
             (User, "question 10", None); (Assistant, "answer 10", None);
             (User, "question 11", None); (Assistant, "answer 11", None);
             (User, "question 12", None); (Assistant, "answer 12", None);
             (User, "one more", None)].
Proof.
  split; [vm_compute; reflexivity|].
  destruct (send_transmits_window plain_delta (good_env [event "ok"]) "one more" None
              (dialogue 12 first_load) eq_refl eq_refl)
    as [req [H1 [H2 _]]].
  - vm_compute; reflexivity.
  - exists req. split; [exact H1|]. rewrite H2. vm_compute. reflexivity.
Defined.

Lemma broken_env_failure :
  failure plain_delta broken_env ["Hel"] (caught_text "boom").
Proof.
  exact (read_failed plain_delta broken_env _ _ "boom" eq_refl eq_refl eq_refl eq_refl).
Defined.

Lemma failed_send_reports_error_broken :
  messages (handleSend plain_delta broken_env "hi" None first_load)
  = [userMessage "hi" None;
     mkMessage Assistant ("Hel" ++ caught_text "boom") None (Some false)].
Proof.
  destruct (failed_send_reports_error plain_delta broken_env "hi" None first_load
              ["Hel"] (caught_text "boom") eq_refl eq_refl broken_env_failure)
    as [_ [H _]].
  exact H.
Defined.

(** C4, as the specification states it, fails when the stream breaks after
    a chunk has been delivered: the placeholder then begins with that chunk. *)
Lemma partial_output_stays :
  ~ error_only "Hel" (handleSend plain_delta broken_env "hi" None first_load).
Proof.
  intros [l [m [H [_ [_ P]]]]].
  change (messages (handleSend plain_delta broken_env "hi" None first_load))
    with ([userMessage "hi" None]
          ++ [mkMessage Assistant ("Hel" ++ caught_text "boom") None (Some false)]) in H.
  apply app_inj_tail in H. destruct H as [_ H]. subst m.
  vm_compute in P. discriminate.
Qed.

Lemma empty_send_is_noop_blank :
  handleManualSend plain_delta (fun _ => "") (good_env hello_reads)
    (set_input "   " first_load)
  = set_input "   " first_load.
Proof.
  destruct (empty_send_is_noop plain_delta (good_env hello_reads)
              (set_input "   " first_load)) as [_ [_ H]].
  exact (H (fun _ => "") eq_refl eq_refl).
Defined.

End ChatSpec.

(** ** The chat session: one streaming message at most *)

Module ChatInvariant.

Import Js Gemini GeminiChat JsFacts ChatFacts.

Lemma removelast_map_last {A : Type} (f : A -> A) (l : list A) :
  removelast (map_last f l) = removelast l.
Proof.
  induction l as [|a l IH]; [reflexivity|].
  destruct l as [|b l]; [reflexivity|].
  rewrite map_last_cons by discriminate.
  change (removelast (a :: b :: l)) with (a :: removelast (b :: l)).
  rewrite <- IH.
  destruct (map_last f (b :: l)) eqn:E; [|reflexivity].
  destruct l; discriminate.
Qed.

Lemma map_last_committed (f : Message -> Message) (l : list Message) :
  (forall m, committed (f m) = true) ->
  all_committed (removelast l) -> all_committed (map_last f l).
Proof.
  intros Hf. unfold all_committed.
  induction l as [|a l IH]; [reflexivity|].
  destruct l as [|b l]; intros H.
  - simpl. now rewrite Hf.
  - rewrite map_last_cons by discriminate.
    change (removelast (a :: b :: l)) with (a :: removelast (b :: l)) in H.
    simpl in H. apply andb_true_iff in H. destruct H as [Ha H].
    change (forallb committed (a :: map_last f (b :: l)))
      with (committed a && forallb committed (map_last f (b :: l))).
    now rewrite Ha, IH.
Qed.

Lemma all_committed_removelast (l : list Message) :
  all_committed l -> all_committed (removelast l).
Proof.
  unfold all_committed. induction l as [|a l IH]; [reflexivity|].
  destruct l as [|b l]; [reflexivity|].
  change (removelast (a :: b :: l)) with (a :: removelast (b :: l)).
  simpl. intros H. apply andb_true_iff in H. destruct H as [Ha H].
  rewrite Ha. now apply IH.
Qed.

Lemma effect_messages_stored w :
  match storage w with Some l => all_committed l | None => True end ->
  match storage (effect_messages w) with Some l => all_committed l | None => True end.
Proof.
  intros H. destruct (effect_messages_storage w) as [E|E]; rewrite E; [exact H|].
  apply forallb_filter.
Qed.

Lemma mount_messages st rq :
  messages (mount st rq) = match st with Some l => l | None => [] end.
Proof. destruct st; unfold mount; now rewrite effect_messages_messages. Qed.

Lemma mount_stored st rq :
  match st with Some l => all_committed l | None => True end ->
  match storage (mount st rq) with Some l => all_committed l | None => True end.
Proof. intros H. destruct st; unfold mount; now apply effect_messages_stored. Qed.

Lemma effect_messages_stored_committed w :
  stored_committed w -> stored_committed (effect_messages w).
Proof. exact (effect_messages_stored w). Qed.

Lemma replace_at_nonempty {A : Type} (k : nat) (v : A) (l : list A) :
  replace_at k v l <> [].
Proof. unfold replace_at. destruct (firstn k l); discriminate. Qed.

(** Every update keeps what is stored committed, whether sends overlap or
    not. *)
Lemma step_stored s s' :
  stored_committed (world s) -> step s s' -> stored_committed (world s').
Proof.
  intros Hs St.
  destruct St as [s | s t i rq G | s k acc c I | s k acc I | s k acc msg I | s];
    cbn [world].
  - now apply mount_stored.
  - destruct rq; unfold record_request, send_begin;
      [change (stored_committed (set_sent ?v ?w)) with (stored_committed w)|];
      now apply effect_messages_stored_committed.
  - unfold on_chunk. now apply effect_messages_stored_committed.
  - change (stored_committed (set_isLoading false ?w)) with (stored_committed w).
    unfold send_done. now apply effect_messages_stored_committed.
  - change (stored_committed (set_isLoading false ?w)) with (stored_committed w).
    unfold send_failed. now apply effect_messages_stored_committed.
  - unfold handleClear. now apply effect_messages_stored_committed.
Qed.


Lemma initial_consistent : consistent initial.
Proof. repeat split. Qed.

(** Every update that leaves at most one send pending keeps the session
    consistent. *)
Lemma step_consistent s s' :
  consistent s -> step s s' -> (List.length (inflight s') <= 1)%nat -> consistent s'.
Proof.
  intros [Hr [Hm Hs]] St L. unfold consistent.
  split; [|split; [|now apply (step_stored s)]].
  - destruct St as [s | s t i rq G | s k acc c I | s k acc I | s k acc msg I | s];
      cbn [world inflight] in *.
    + apply all_committed_removelast. rewrite mount_messages.
      unfold stored_committed in Hs.
      destruct (storage (world s)); [exact Hs | reflexivity].
    + rewrite record_request_messages, send_begin_messages, removelast_last.
      rewrite length_app in L. simpl in L.
      assert (E : inflight s = []) by (destruct (inflight s); [reflexivity | simpl in L; lia]).
      unfold all_committed in *. now rewrite forallb_app, (Hm E).
    + now rewrite on_chunk_messages, removelast_map_last.
    + now rewrite set_isLoading_messages, send_done_messages, removelast_map_last.
    + now rewrite set_isLoading_messages, send_failed_messages, removelast_map_last.
    + unfold handleClear. now rewrite effect_messages_messages.
  - destruct St as [s | s t i rq G | s k acc c I | s k acc I | s k acc msg I | s];
      cbn [world inflight] in *; intros E.
    + rewrite mount_messages. unfold stored_committed in Hs.
      destruct (storage (world s)); [exact Hs | reflexivity].
    + now destruct (inflight s).
    + now apply replace_at_nonempty in E.
    + rewrite set_isLoading_messages, send_done_messages.
      now apply map_last_committed.
    + rewrite set_isLoading_messages, send_failed_messages.
      now apply map_last_committed.
    + unfold handleClear. now rewrite effect_messages_messages.
Qed.

Lemma serial_consistent s : serial s -> consistent s.
Proof.
  induction 1 as [|s s' _ IH St L]; [exact initial_consistent|].
  now apply (step_consistent s).
Qed.

Lemma serial_reachable s : serial s -> reachable s.
Proof.
  induction 1 as [|s s' _ IH St L]; [exact reach_initial|].
  exact (reach_step s s' IH St).
Qed.

Lemma removelast_committed_one (l : list Message) :
  all_committed (removelast l) -> one_streaming_last l.
Proof.
  unfold all_committed. intros H.
  induction l as [|a l _] using rev_ind;
    [split; [simpl; lia | intros [|i] m; discriminate]|].
  rewrite removelast_last in H. split.
  - rewrite filter_app.
    assert (E : filter streaming l = []).
    { clear -H. induction l as [|b l IH]; [reflexivity|].
      simpl in H. apply andb_true_iff in H. destruct H as [Hb H].
      simpl. unfold committed in Hb. apply negb_true_iff in Hb. rewrite Hb. now apply IH. }
    rewrite E. simpl. destruct (streaming a); simpl; lia.
  - intros i m Hn Sm. rewrite length_app. simpl.
    destruct (Nat.lt_ge_cases i (List.length l)) as [Lt|Ge].
    + rewrite nth_error_app1 in Hn by assumption.
      apply nth_error_In in Hn.
      rewrite forallb_forall in H. specialize (H m Hn).
      unfold committed in H. rewrite Sm in H. discriminate.
    + assert (Hi : (i < List.length (l ++ [a]))%nat).
      { apply nth_error_Some. now rewrite Hn. }
      rewrite length_app in Hi. simpl in Hi. lia.
Qed.

(** Every update leaves the ref equal to the state: a send reads the
    history the user sees. *)
Lemma reachable_settled s :
  reachable s -> messagesRef (world s) = messages (world s).
Proof.
  induction 1 as [|s s' _ _ St]; [reflexivity|].
  destruct St as [s | s t i rq G | s k acc c I | s k acc I | s k acc msg I | s];
    cbn [world inflight].
  - destruct (storage (world s)); unfold mount;
      now rewrite effect_messages_ref, effect_messages_messages.
  - destruct rq; unfold record_request, send_begin;
      [change (messagesRef (set_sent ?v ?w)) with (messagesRef w);
       change (messages (set_sent ?v ?w)) with (messages w)|];
      now rewrite effect_messages_ref, effect_messages_messages.
  - unfold on_chunk. now rewrite effect_messages_ref, effect_messages_messages.
  - rewrite set_isLoading_messages, set_isLoading_ref. apply send_done_ref.
  - rewrite set_isLoading_messages, set_isLoading_ref. unfold send_failed.
    now rewrite effect_messages_ref, effect_messages_messages.
  - unfold handleClear. now rewrite effect_messages_ref, effect_messages_messages.
Qed.

Lemma deliver_serial cs : forall acc w,
  serial (mkSession w [acc]) ->
  serial (mkSession (snd (deliver cs acc w)) [fst (deliver cs acc w)]).
Proof.
  induction cs as [|c cs IH]; intros acc w R; simpl; [exact R|].
  apply IH.
  exact (serial_step _ _ R (step_chunk (mkSession w [acc]) 0 acc c eq_refl) (le_n 1)).
Qed.

(** The states a call of [handleSend] goes through when no other send is
    pending are states of the session with one send at a time. *)
Lemma handleSend_serial delta_content env t i w :
  serial (mkSession w []) ->
  serial (mkSession (handleSend delta_content env t i w) []).
Proof.
  intros R. unfold handleSend.
  destruct (negb (truthy t) && negb (truthy_opt i)) eqn:G; [exact R|]. cbv zeta.
  rewrite streamFromGemini_fulfilled.
  set (out := streamFromGemini delta_content env _ i _).
  pose proof (serial_step _ _ R
                (step_begin (mkSession w []) t i (request out) G) (le_n 1)) as R1.
  cbn [world inflight app] in R1.
  apply (deliver_serial (calls out)) in R1.
  exact (serial_step _ _ R1 (step_done (mkSession _ [_]) 0 _ eq_refl) (le_0_n 1)).
Qed.

(** C3, as the code has it.  In every state of the message list that
    loading, sending (chunk by chunk) and clearing lead to when no send
    begins while another is pending, at most one message has [isStreaming]
    set, and such a message is the last of the list. *)
Theorem one_streaming_message_last s :
  serial s -> one_streaming_last (messages (world s)).
Proof.
  intros R. apply removelast_committed_one.
  now destruct (serial_consistent s R) as [Hr _].
Qed.

Lemma one_streaming_message_last_hello :
  one_streaming_last
    (messages (handleSend Samples.plain_delta (Samples.good_env Samples.hello_reads)
                 "Say hello" None Samples.first_load)).
Proof.
  exact (one_streaming_message_last _
           (handleSend_serial Samples.plain_delta (Samples.good_env Samples.hello_reads)
              "Say hello" None Samples.first_load serial_initial)).
Defined.

(** C3, as the specification states it, fails: the component does not
    refuse a send while another is pending (the one a toolbar action starts,
    say), and after two sends have begun both placeholders are streaming. *)
Lemma overlapping_sends_two_streaming :
  exists s, reachable s /\ ~ one_streaming_last (messages (world s)).
Proof.
  exists (mkSession
            (record_request None
               (send_begin "second" None
                  (record_request None (send_begin "first" None Samples.first_load))))
            ["" ; ""]%string).
  split.
  - exact (reach_step _ _
             (reach_step _ _ reach_initial (step_begin initial "first" None None eq_refl))
             (step_begin (mkSession _ [""%string]) "second" None None eq_refl)).
  - intros [H _]. vm_compute in H. lia.
Qed.

End ChatInvariant.

(** ** The classifier of text selections *)

Module ClassifierSpec.

Import Regex Viewer.

Lemma trim_start_blank (s : jsstring) : forallb is_space s = true -> trim_start s = [].
Proof.
  induction s as [|c s IH]; [reflexivity|]. simpl.
  intros H. apply andb_true_iff in H. destruct H as [Hc Hs].
  rewrite Hc. now apply IH.
Qed.

Lemma trim_blank (s : jsstring) : forallb is_space s = true -> trim s = [].
Proof. intros H. unfold trim. now rewrite (trim_start_blank s H). Qed.

(** C7. The kind of a text selection is a function of the selected text
    alone: the integral is an equation, "The cat sat" is text, "x = 5" is
    an equation; and no selection is made of an empty text or of one that
    is white space only (nor when there is no text at all). *)
Theorem text_selection_classified :
  classify Samples.integral = EquationSel
  /\ classify Samples.sentence = TextSel
  /\ classify Samples.assignment = EquationSel
  /\ (forall s st,
        trim s <> [] ->
        handleTextSelection (Some s) st
        = let sel := mkSelection (classify (trim s)) (trim s) 1 None None in
          onSelectionChange (Some sel) (set_selection (Some sel) st))
  /\ (forall st, handleTextSelection (Some []) st = st)
  /\ (forall st, handleTextSelection None st = st)
  /\ (forall s st, forallb is_space s = true -> handleTextSelection (Some s) st = st).
Proof.
  split; [vm_compute; reflexivity|].
  split; [vm_compute; reflexivity|].
  split; [vm_compute; reflexivity|].
  split; [|split; [reflexivity|split; [reflexivity|]]].
  - intros s st H. unfold handleTextSelection. cbn [option_map].
    destruct (trim s); [congruence | reflexivity].
  - intros s st H. unfold handleTextSelection. cbn [option_map].
    now rewrite (trim_blank s H).
Qed.

Lemma text_selection_classified_samples :
  handleTextSelection (Some Samples.blank) (Samples.dragging Samples.tiny_drag)
  = Samples.dragging Samples.tiny_drag
  /\ emitted (handleTextSelection (Some (units " x = 5 ")) (Samples.dragging Samples.tiny_drag))
     = [Some (mkSelection EquationSel Samples.assignment 1 None None)].
Proof.
  destruct text_selection_classified as [_ [_ [_ [H1 [_ [_ H2]]]]]].
  split.
  - exact (H2 Samples.blank _ eq_refl).
  - rewrite (H1 (units " x = 5 ")) by (vm_compute; discriminate).
    vm_compute. reflexivity.
Defined.

End ClassifierSpec.

(** ** Region capture *)

Module CaptureSpec.

Import Regex Viewer JsFacts.

(** What [handleMouseUp] does once the drag is known. *)
Lemma handleMouseUp_dragging dom st d :
  isSelecting st = true -> selectionRect st = Some d ->
  handleMouseUp dom st
  = set_selectionRect None
      (set_isSelecting false
         match region_selection dom d with
         | Some sel => onSelectionChange (Some sel) (set_selection (Some sel) st)
         | None => st
         end).
Proof. intros I R. unfold handleMouseUp. now rewrite I, R. Qed.

Lemma region_selection_valid dom d canvas r :
  pageRefs dom (pageNum d) = Some (WithCanvas canvas) -> context2d dom = true ->
  above_threshold (normalize d) = true -> to_rect (normalize d) = Some r ->
  region_selection dom d
  = Some (mkSelection RegionSel (region_content (pageNum d)) (pageNum d)
                      (Some (capture canvas (normalize d))) (Some r)).
Proof.
  intros P C T F. unfold region_selection. now rewrite P, C, T, F.
Qed.

Lemma region_selection_small dom d :
  above_threshold (normalize d) = false -> region_selection dom d = None.
Proof.
  intros T. unfold region_selection.
  destruct (pageRefs dom (pageNum d)) as [[|c]|]; try reflexivity.
  now rewrite T.
Qed.

Lemma above_threshold_spec (b : NumRect) :
  above_threshold b = true
  <-> gt (nwidth b) Number.ten = true /\ gt (nheight b) Number.ten = true.
Proof. unfold above_threshold. apply andb_true_iff. Qed.

Lemma below_threshold_spec (b : NumRect) :
  above_threshold b = false
  <-> gt (nwidth b) Number.ten = false \/ gt (nheight b) Number.ten = false.
Proof. unfold above_threshold. apply andb_false_iff. Qed.

(** C5, as the code has it.  Width and height are those the code
    computes, in its double arithmetic.  When the page has a canvas, a 2d
    context can be had and the numbers of the rectangle are finite, the end
    of a drag makes a selection, of that rectangle, if and only if width > 10
    and height > 10.  When the test fails (width <= 10 or height <= 10), no
    selection is made and the selection, the annotations and the storage
    stay as they were; the drag itself is over ([isSelecting] is reset and
    [selectionRect] cleared), as after every drag. *)
Theorem drag_selects_above_threshold dom st d canvas r :
  isSelecting st = true -> selectionRect st = Some d ->
  pageRefs dom (pageNum d) = Some (WithCanvas canvas) -> context2d dom = true ->
  to_rect (normalize d) = Some r ->
  let b := normalize d in
  let st' := handleMouseUp dom st in
  ((exists sel, emitted st' = emitted st ++ [Some sel]
                /\ selection st' = Some sel /\ rect sel = Some r)
   <-> gt (nwidth b) Number.ten = true /\ gt (nheight b) Number.ten = true)
  /\ (gt (nwidth b) Number.ten = false \/ gt (nheight b) Number.ten = false ->
      st' = set_selectionRect None (set_isSelecting false st)).
Proof.
  intros I R P C F b st'. subst b st'.
  rewrite (handleMouseUp_dragging dom st d I R). split; [split|].
  - intros [sel [E _]]. apply above_threshold_spec.
    destruct (above_threshold (normalize d)) eqn:T; [reflexivity|].
    rewrite (region_selection_small dom d T) in E.
    simpl in E. symmetry in E. now apply snoc_neq in E.
  - intros T. apply above_threshold_spec in T.
    rewrite (region_selection_valid dom d canvas r P C T F).
    eexists. split; [reflexivity|]. split; reflexivity.
  - intros T. apply below_threshold_spec in T.
    now rewrite (region_selection_small dom d T).
Qed.

Lemma drag_selects_above_threshold_samples :
  (exists sel, emitted (handleMouseUp Samples.retina_dom (Samples.dragging Samples.wide_drag))
               = [Some sel]
               /\ rect sel = Some (mkRect 20 30 100 50))
  /\ handleMouseUp Samples.retina_dom (Samples.dragging Samples.tiny_drag)
     = set_selectionRect None (set_isSelecting false (Samples.dragging Samples.tiny_drag)).
Proof.
  split.
  - destruct (drag_selects_above_threshold Samples.retina_dom
                (Samples.dragging Samples.wide_drag) Samples.wide_drag Samples.retina
                (mkRect 20 30 100 50) eq_refl eq_refl eq_refl eq_refl eq_refl)
      as [[_ H] _].
    destruct H as [sel [E [_ Rs]]]; [split; reflexivity|].
    exists sel. split; [exact E | exact Rs].
  - destruct (drag_selects_above_threshold Samples.retina_dom
                (Samples.dragging Samples.tiny_drag) Samples.tiny_drag Samples.retina
                (mkRect 10 10 5 5) eq_refl eq_refl eq_refl eq_refl eq_refl)
      as [_ H].
    apply H. left. reflexivity.
Defined.

(** C5, as the specification states it, fails twice.  A drag of 5 by 5
    makes no selection, but the state changes: the drag is over.  And a
    drag of 100 by 50 makes no selection when no 2d context can be had. *)
Lemma small_drag_changes_state :
  handleMouseUp Samples.retina_dom (Samples.dragging Samples.tiny_drag)
  <> Samples.dragging Samples.tiny_drag
  /\ (gt (nwidth (normalize Samples.wide_drag)) Number.ten = true
      /\ gt (nheight (normalize Samples.wide_drag)) Number.ten = true
      /\ emitted (handleMouseUp Samples.contextless_dom (Samples.dragging Samples.wide_drag))
         = []).
Proof.
  split; [|split; [reflexivity | split; reflexivity]].
  intros H. apply (f_equal isSelecting) in H. vm_compute in H. discriminate.
Qed.

(** The width is the one the code computes: from a press one unit in the
    last place below 2 to a release at 12 the difference is the double 10,
    which is not above the threshold, and no selection is made. *)
Example drag_of_rounded_width :
  nwidth (normalize Samples.edge_drag) = Number.ten
  /\ emitted (handleMouseUp Samples.retina_dom (Samples.dragging Samples.edge_drag)) = [].
Proof. split; reflexivity. Qed.

End CaptureSpec.

(** ** The size of a captured image *)

Module ImageSpec.

Import Regex Viewer CaptureSpec.

Lemma canvas_size_small (default : Z) (f : PrimFloat.float) :
  (0 <= Number.trunc f <= 2147483647)%Z -> canvas_size default f = Number.trunc f.
Proof.
  intros B. unfold canvas_size, to_unsigned_long.
  rewrite Z.mod_small by lia.
  destruct (Z.leb_spec (Number.trunc f) 2147483647); [reflexivity | lia].
Qed.

(** C6, as the code has it.  The image of a valid capture is as many
    pixels wide and high as the integer parts of the width and the height of
    the drag rectangle, whatever the scale of the canvas: the width of the
    image is the width of the drag as an unsigned long (its integer part
    modulo 2^32), or 300 when that is above 2^31 - 1, and so the height,
    with 150.  Up to 2^31 - 1 that is the integer part. *)
Theorem captured_image_has_drag_size dom st d canvas r :
  isSelecting st = true -> selectionRect st = Some d ->
  pageRefs dom (pageNum d) = Some (WithCanvas canvas) -> context2d dom = true ->
  to_rect (normalize d) = Some r ->
  let b := normalize d in
  gt (nwidth b) Number.ten = true -> gt (nheight b) Number.ten = true ->
  exists sel img,
    selection (handleMouseUp dom st) = Some sel
    /\ imageData sel = Some img
    /\ img_width img = canvas_size 300 (nwidth b)
    /\ img_height img = canvas_size 150 (nheight b)
    /\ ((0 <= Number.trunc (nwidth b) <= 2147483647)%Z ->
        img_width img = Number.trunc (nwidth b))
    /\ ((0 <= Number.trunc (nheight b) <= 2147483647)%Z ->
        img_height img = Number.trunc (nheight b)).
Proof.
  intros I R P C F b W H. subst b.
  rewrite (handleMouseUp_dragging dom st d I R).
  rewrite (region_selection_valid dom d canvas r P C
             (proj2 (above_threshold_spec _) (conj W H)) F).
  eexists. eexists. split; [reflexivity|]. split; [reflexivity|].
  cbn [capture img_width img_height].
  split; [reflexivity|]. split; [reflexivity|].
  split; apply canvas_size_small.
Qed.

Lemma captured_image_has_drag_size_retina :
  exists sel img,
    selection (handleMouseUp Samples.retina_dom (Samples.dragging Samples.uneven_drag))
    = Some sel
    /\ imageData sel = Some img
    /\ img_width img = 100%Z /\ img_height img = 50%Z.
Proof.
  destruct (captured_image_has_drag_size Samples.retina_dom
              (Samples.dragging Samples.uneven_drag) Samples.uneven_drag Samples.retina
              (mkRect 20 30 (201 # 2) (201 # 4))
              eq_refl eq_refl eq_refl eq_refl eq_refl eq_refl eq_refl)
    as [sel [img [S [D [_ [_ [W H]]]]]]].
  exists sel, img. split; [exact S|]. split; [exact D|].
  split; [rewrite W | rewrite H]; vm_compute; try reflexivity; split; discriminate.
Defined.

(** C6, as the specification states it, fails on a canvas shown at half
    its resolution: a drag of 100 by 50 gives an image of 100 by 50 pixels,
    where round(width * scaleX) by round(height * scaleY) is 200 by 100. *)
Lemma captured_image_not_scaled :
  let b := normalize Samples.wide_drag in
  exists sel img,
    selection (handleMouseUp Samples.retina_dom (Samples.dragging Samples.wide_drag))
    = Some sel
    /\ imageData sel = Some img
    /\ (img_width img, img_height img) = (100, 50)%Z
    /\ (round (PrimFloat.mul (nwidth b) (scaleX Samples.retina)),
        round (PrimFloat.mul (nheight b) (scaleY Samples.retina)))
       = (Some 200, Some 100)%Z
    /\ (Some (img_width img), Some (img_height img))
       <> (round (PrimFloat.mul (nwidth b) (scaleX Samples.retina)),
           round (PrimFloat.mul (nheight b) (scaleY Samples.retina))).
Proof.
  eexists. eexists.
  split; [vm_compute; reflexivity|]. split; [reflexivity|].
  split; [vm_compute; reflexivity|]. split; [vm_compute; reflexivity|].
  vm_compute. discriminate.
Qed.

End ImageSpec.

(** ** The annotation store *)

Module AnnotationSpec.

Import Regex Viewer.

Lemma restore_app l1 l2 : restore (l1 ++ l2) = restore l1 ++ restore l2.
Proof. apply flat_map_app. Qed.

Lemma restore_stringify l : restore (map stringify l) = l.
Proof.
  induction l as [|a l IH]; [reflexivity|].
  destruct a. simpl. now rewrite IH.
Qed.

Lemma restore_without_rect l1 s l2 :
  s_rect s = None -> restore (l1 ++ s :: l2) = restore (l1 ++ l2).
Proof.
  intros H. rewrite !restore_app. f_equal.
  change (restore (s :: l2)) with
    (match s_rect s with
     | Some r => [mkAnnotation (s_id s) (s_pageNumber s) r (s_status s)
                               (s_note s) (s_content s) (s_createdAt s)]
     | None => []
     end ++ restore l2).
  now rewrite H.
Qed.

Lemma effect_annotations_annotations st :
  annotations (effect_annotations st) = annotations st.
Proof. unfold effect_annotations. now destruct (_ <? _)%nat. Qed.

Lemma effect_annotations_synced st : synced st -> synced (effect_annotations st).
Proof.
  unfold synced, effect_annotations. intros H.
  destruct (0 <? List.length (annotations st))%nat eqn:E; [|exact H].
  cbn [annotations stored set_stored]. now rewrite restore_stringify.
Qed.

Lemma effect_annotations_nonempty st :
  annotations st <> [] ->
  stored (effect_annotations st) = Some (map stringify (annotations st)).
Proof.
  intros H. unfold effect_annotations.
  destruct (annotations st) as [|a l] eqn:E; [congruence|]. reflexivity.
Qed.

Lemma mount_annotations saved :
  annotations (mount saved) = match saved with Some l => restore l | None => [] end.
Proof. destruct saved; unfold mount; now rewrite effect_annotations_annotations. Qed.

Lemma mount_synced saved : synced (mount saved).
Proof.
  destruct saved as [l|]; unfold mount.
  - unfold synced, effect_annotations.
    cbn [annotations set_annotations].
    destruct (0 <? List.length (restore l))%nat;
      cbn [annotations stored set_stored set_annotations];
      [now rewrite restore_stringify | reflexivity].
  - reflexivity.
Qed.

(** Loading what a synced state has stored gives its annotations back. *)
Lemma synced_reload st : synced st -> annotations (mount (stored st)) = annotations st.
Proof. intros H. now rewrite mount_annotations. Qed.

Lemma create_annotations c st :
  annotations (create c st) = annotations st ++ new_annotation c.
Proof.
  unfold create, addAnnotation, addAnnotationOf, new_annotation.
  cbn [selection set_selection].
  destruct (rect (c_selection c)) as [r|]; [|now rewrite app_nil_r].
  destruct (pageNumber (c_selection c) =? 0)%nat; [now rewrite app_nil_r|].
  now rewrite effect_annotations_annotations.
Qed.

Lemma create_synced c st : synced st -> synced (create c st).
Proof.
  intros H. unfold create, addAnnotation, addAnnotationOf. cbn [selection set_selection].
  destruct (rect (c_selection c)) as [r|]; [|exact H].
  destruct (pageNumber (c_selection c) =? 0)%nat; [exact H|].
  unfold synced, effect_annotations.
  match goal with |- context [(0 <? List.length ?l)%nat] =>
    destruct l as [|a l'] eqn:E end.
  - cbn [annotations set_annotations set_selection onSelectionChange] in E.
    now destruct (annotations st).
  - cbn [Nat.ltb Nat.leb List.length annotations stored set_stored].
    now rewrite restore_stringify.
Qed.

Lemma creates_annotations cs : forall st,
  annotations (creates cs st) = annotations st ++ flat_map new_annotation cs.
Proof.
  induction cs as [|c cs IH]; intros st; simpl; [now rewrite app_nil_r|].
  unfold creates in IH. rewrite IH, create_annotations. now rewrite app_assoc.
Qed.

Lemma creates_synced cs : forall st, synced st -> synced (creates cs st).
Proof.
  induction cs as [|c cs IH]; intros st H; [exact H|].
  apply IH. now apply create_synced.
Qed.

(** C8. Annotations made one after the other, saved, loaded and restored
    come back in the order they were made in and with every field as it was:
    exactly those of the requests made on a selection with a [rect] (the
    others make no record).  A saved record without a [rect] is dropped by
    the load. *)
Theorem annotations_round_trip saved cs :
  let st := creates cs (mount saved) in
  annotations st = annotations (mount saved) ++ flat_map new_annotation cs
  /\ annotations (mount (stored st)) = annotations st
  /\ (forall l, restore (map stringify l) = l)
  /\ (forall l1 s l2, s_rect s = None -> restore (l1 ++ s :: l2) = restore (l1 ++ l2)).
Proof.
  intros st. subst st. split; [apply creates_annotations|].
  split; [apply synced_reload, creates_synced, mount_synced|].
  split; [exact restore_stringify | exact restore_without_rect].
Qed.

Lemma annotations_round_trip_samples :
  List.length (annotations (mount (stored (creates Samples.three_creations
                                             (mount (Some [Samples.old_record]))))))
  = 2%nat
  /\ restore ([] ++ Samples.old_record :: map stringify
                (annotations (creates Samples.three_creations (mount None))))
     = annotations (creates Samples.three_creations (mount None)).
Proof.
  destruct (annotations_round_trip (Some [Samples.old_record]) Samples.three_creations)
    as [H1 [H2 [H3 H4]]].
  split.
  - rewrite H2, H1. vm_compute. reflexivity.
  - rewrite (H4 [] Samples.old_record _ eq_refl). apply H3.
Defined.

End AnnotationSpec.

(** ** The document registry *)

Module DbSpec.

Import Db.

(** C9. The list of the registry has one record for every stored PDF, in
    the order of the store, with the id, the name, the status and the two
    timestamps of the PDF; the bytes of the file are not part of it, and the
    list is the same whatever they are. *)
Theorem getAll_lists_without_bytes (f : File) :
  List.length (getAll f) = List.length (pdfs (loadDb f))
  /\ (forall k p,
        nth_error (pdfs (loadDb f)) k = Some p ->
        nth_error (getAll f) k
        = Some (mkPDFInfo (id p) (name p) (status p) (uploaded_at p) (updated_at p)))
  /\ (forall db (g : PDF -> string),
        getAll (Holds (mkDatabase (map (fun p => with_file_data (g p) p) (pdfs db))
                                  (annotations db) (nextPdfId db) (nextAnnotationId db)))
        = getAll (Holds db)).
Proof.
  unfold getAll. split; [apply length_map|]. split.
  - intros k p H. now rewrite nth_error_map, H.
  - intros db g. cbn [loadDb pdfs]. rewrite map_map. reflexivity.
Qed.

Lemma getAll_lists_without_bytes_library :
  nth_error (getAll Samples.library) 1
  = Some (mkPDFInfo 2 "b.pdf" "ongoing" "2025-02-01" "2025-02-03").
Proof.
  destruct (getAll_lists_without_bytes Samples.library) as [_ [H _]].
  exact (H 1%nat _ eq_refl).
Defined.

End DbSpec.

(** ** More on the completion client *)

Module GeminiMore.

Import Js Gemini GeminiChat JsFacts ChatFacts.

Lemma fold_left_append (l : list string) : forall acc,
  fold_left append l acc = (acc ++ join l)%string.
Proof.
  induction l as [|s l IH]; intros acc; simpl; [now rewrite append_nil_r|].
  now rewrite IH, append_assoc.
Qed.

Section Stream.

Variable delta_content : string -> option string.

Local Abbreviation streamFromGemini := (streamFromGemini delta_content).
Local Abbreviation sendToGemini := (sendToGemini delta_content).
Local Abbreviation stream_chunks := (stream_chunks delta_content).
Local Abbreviation read_chunks := (read_chunks delta_content).
Local Abbreviation line_chunk := (line_chunk delta_content).

(** A read in which no line is an event that decodes is skipped: the stream
    goes on, and what it delivers is what it would deliver without that
    read. *)
Theorem undecodable_read_skipped (rs1 rs2 : list string) (bad : string) :
  (forall line, In line (split_lines bad) ->
                prefix "data: " line = false \/ delta_content (drop 6 line) = None) ->
  stream_chunks (rs1 ++ bad :: rs2) = stream_chunks (rs1 ++ rs2).
Proof.
  intros H. unfold Gemini.stream_chunks.
  rewrite !flat_map_app. f_equal.
  change (flat_map read_chunks (bad :: rs2))
    with (read_chunks bad ++ flat_map read_chunks rs2).
  assert (E : read_chunks bad = []).
  { unfold Gemini.read_chunks.
    induction (split_lines bad) as [|line ls IH]; [reflexivity|].
    simpl. rewrite IH by (intros l Hl; apply H; now right).
    destruct (H line (or_introl eq_refl)) as [P|D];
      unfold Gemini.line_chunk; [now rewrite P|].
    destruct (prefix "data: " line); [|reflexivity].
    destruct (drop 6 line =? "[DONE]")%string; [reflexivity|].
    now rewrite D. }
  now rewrite E.
Qed.

(** The end marker does not end the reading: the events that follow it, in
    the same read and in the reads after it, are delivered all the same. *)
Theorem done_marker_is_passed_over (rest : string) (rs : list string) :
  stream_chunks (("data: [DONE]" ++ nl ++ rest)%string :: rs) = stream_chunks (rest :: rs).
Proof.
  unfold Gemini.stream_chunks.
  change (flat_map read_chunks (?a :: rs)) with (read_chunks a ++ flat_map read_chunks rs).
  f_equal.
Qed.

(** The request built for a prompt has between 1 and 11 entries.  The last
    is the prompt as the user, with the image attached to it if there is
    one; those before are the last ten messages of the history, in order,
    each with its role, its content, and its image exactly when it holds
    image data.  The request asks for a streamed answer. *)
Theorem request_shape (p : string) (i : option string) (h : list Message) :
  let r := build_request p i h in
  (1 <= List.length (req_messages r) <= 11)%nat
  /\ map entry (req_messages r)
     = map (fun m => (role m, content m,
                      if truthy_opt (imageData m)
                      then option_map data_url (imageData m) else None))
           (slice_last 10 h)
       ++ [(User, p, if truthy_opt i then option_map data_url i else None)]
  /\ stream r = true.
Proof.
  cbn [build_request req_messages stream].
  split; [|split; [|reflexivity]].
  - rewrite length_app, length_map, slice_last_length. simpl. lia.
  - rewrite map_app, map_map. f_equal.
    + apply map_ext. intros m. unfold entry, entry_text, entry_image, encode, truthy_opt.
      destruct (imageData m) as [img|]; [|reflexivity]. now destruct (truthy img).
    + cbn [map]. unfold entry, entry_text, entry_image, encode_current, truthy_opt.
      destruct i as [img|]; [|reflexivity]. now destruct (truthy img).
Qed.

(** Once the request has settled and the reading of the stream has come
    to its end, however they turn out (a missing key, a rejected request,
    any status, a body that is missing, a stream that ends or a read that
    fails), [sendToGemini] is not rejected: it returns a text.  With a
    missing key the text asks for the key and no request is
    made; with a key the one request made has a single entry, the prompt as
    the user with the image attached to it: no history is sent. *)
Theorem sendToGemini_returns_text env p i :
  exists result,
    fst (sendToGemini env p i) = inl result
    /\ (key_missing (apiKey env) = true ->
          result = missing_key_text /\ snd (sendToGemini env p i) = None)
    /\ (key_missing (apiKey env) = false ->
          exists req, snd (sendToGemini env p i) = Some req
                      /\ map entry (req_messages req)
                         = [(User, p,
                             if truthy_opt i then option_map data_url i else None)]).
Proof.
  unfold Gemini.sendToGemini. cbv zeta. cbn [fst snd].
  rewrite streamFromGemini_fulfilled. eexists. split; [reflexivity|]. split.
  - intros K. unfold Gemini.streamFromGemini. rewrite K. split; [|reflexivity].
    cbn [calls fold_left]. reflexivity.
  - intros K. rewrite streamFromGemini_request by assumption.
    eexists. split; [reflexivity|].
    cbn [build_request req_messages slice_last skipn map app].
    unfold entry, entry_text, entry_image, encode_current, truthy_opt.
    destruct i as [img|]; [|reflexivity]. now destruct (truthy img).
Qed.

(** Of a stream that ends well [sendToGemini] returns the chunks, one after
    the other. *)
Theorem sendToGemini_gathers env p i r b :
  key_missing (apiKey env) = false ->
  fetch env = FetchResponse r -> ok r = true -> body r = Some b ->
  ending b = StreamDone ->
  fst (sendToGemini env p i) = inl (join (stream_chunks (reads b))).
Proof.
  intros K F O B E. unfold Gemini.sendToGemini. cbv zeta. cbn [fst].
  rewrite streamFromGemini_fulfilled. unfold Gemini.streamFromGemini.
  rewrite K, F, O, B, E. cbn [negb calls]. now rewrite fold_left_append.
Qed.

End Stream.

Lemma undecodable_read_skipped_sample :
  stream_chunks Samples.plain_delta
    ([Samples.event "Hel"] ++ ": keep-alive"%string :: [Samples.event "lo"])
  = ["Hel"; "lo"]%string.
Proof.
  rewrite (undecodable_read_skipped Samples.plain_delta [Samples.event "Hel"]
             [Samples.event "lo"] ": keep-alive").
  - reflexivity.
  - intros line [H|[]]. subst line. now left.
Defined.

Lemma request_shape_sample :
  map entry (req_messages (build_request "and this?" None
                             [mkMessage User "look" (Some "iVBOR") None;
                              mkMessage Assistant "a chart" None (Some false)]))
  = [(User, "look", Some (data_url "iVBOR")); (Assistant, "a chart", None);
     (User, "and this?", None)].
Proof.
  destruct (request_shape "and this?" None
              [mkMessage User "look" (Some "iVBOR") None;
               mkMessage Assistant "a chart" None (Some false)]) as [_ [H _]].
  exact H.
Defined.

Lemma sendToGemini_returns_text_sample :
  fst (sendToGemini Samples.plain_delta (mkEnv None (FetchRejected "offline")) "hi" None)
  = inl missing_key_text.
Proof.
  destruct (sendToGemini_returns_text Samples.plain_delta
              (mkEnv None (FetchRejected "offline")) "hi" None) as [result [H [K _]]].
  rewrite H. destruct (K eq_refl) as [-> _]. reflexivity.
Defined.

Lemma sendToGemini_gathers_hello :
  fst (sendToGemini Samples.plain_delta (Samples.good_env Samples.hello_reads) "hi" None)
  = inl "Hello world"%string.
Proof.
  exact (sendToGemini_gathers Samples.plain_delta (Samples.good_env Samples.hello_reads)
           "hi" None _ _ eq_refl eq_refl eq_refl eq_refl eq_refl).
Defined.

End GeminiMore.

(** ** More on the chat session *)

Module ChatMore.

Import Js Gemini GeminiChat JsFacts ChatFacts ChatInvariant.

Lemma effect_messages_form w :
  input (effect_messages w) = input w
  /\ pendingImage (effect_messages w) = pendingImage w.
Proof. unfold effect_messages. now destruct (_ <? _)%nat. Qed.

Lemma on_chunk_form acc w :
  input (on_chunk acc w) = input w /\ pendingImage (on_chunk acc w) = pendingImage w.
Proof.
  unfold on_chunk.
  exact (effect_messages_form (setMessages (map_last (with_content acc)) w)).
Qed.

Lemma deliver_form cs : forall acc w,
  input (snd (deliver cs acc w)) = input w
  /\ pendingImage (snd (deliver cs acc w)) = pendingImage w.
Proof.
  induction cs as [|c cs IH]; intros acc w; simpl; [now split|].
  destruct (IH (acc ++ c)%string (on_chunk (acc ++ c) w)) as [I P].
  destruct (on_chunk_form (acc ++ c) w) as [I' P'].
  rewrite I, P, I', P'. now split.
Qed.

Lemma effect_messages_writes w :
  filter committed (messages w) <> [] ->
  storage (effect_messages w) = Some (filter committed (messages w)).
Proof.
  intros H. unfold effect_messages.
  destruct (filter committed (messages w)); [congruence | reflexivity].
Qed.

Lemma effect_messages_keeps w :
  messages w = [] -> storage (effect_messages w) = storage w.
Proof. intros H. unfold effect_messages. now rewrite H. Qed.

Section Component.

Variable delta_content : string -> option string.

Local Abbreviation streamFromGemini := (streamFromGemini delta_content).
Local Abbreviation handleSend := (handleSend delta_content).

(** A send that is let through and runs with no other send or clear
    during it ends its turn once the request has settled and the reading of
    the stream has come to its end, however they turn out (a missing key, a
    rejected request, any status, a stream that ends or a read that fails):
    two messages are
    appended to those that were there, the second is an answer that is no
    longer streaming, the loading flag is down again and the text field is
    empty. *)
Theorem send_always_ends_turn env t i w :
  accepted t i ->
  let w' := handleSend env t i w in
  (exists answer,
     messages w'
     = messages w ++ [userMessage t i; mkMessage Assistant answer None (Some false)])
  /\ isLoading w' = false
  /\ input w' = "".
Proof.
  intros G w'. subst w'. split; [|split; [now apply handleSend_isLoading|]].
  - eexists. now apply handleSend_messages.
  - unfold GeminiChat.handleSend. rewrite G. cbv zeta.
    rewrite streamFromGemini_fulfilled.
    change (input (set_isLoading false ?x)) with (input x).
    unfold send_done.
    match goal with |- input (effect_messages ?x) = _ =>
      destruct (effect_messages_form x) as [I _]; rewrite I end.
    change (input (setMessages ?f ?x)) with (input x).
    match goal with |- input (snd (deliver ?cs ?a ?x)) = _ =>
      destruct (deliver_form cs a x) as [I' _]; rewrite I' end.
    destruct (request _); unfold record_request, send_begin;
      [change (input (set_sent ?v ?x)) with (input x)|];
      match goal with |- input (effect_messages ?x) = _ =>
        destruct (effect_messages_form x) as [I2 _]; rewrite I2 end;
      reflexivity.
Qed.

(** Without an API key no request is made: the answer of the turn is the
    text that asks for the key. *)
Theorem missing_key_sends_nothing env t i w :
  accepted t i ->
  key_missing (apiKey env) = true ->
  let w' := handleSend env t i w in
  sent w' = sent w
  /\ messages w'
     = messages w ++ [userMessage t i;
                      mkMessage Assistant missing_key_text None (Some false)].
Proof.
  intros G K w'. subst w'. split.
  - rewrite handleSend_sent by assumption.
    unfold Gemini.streamFromGemini. rewrite K. cbn [request keep]. apply app_nil_r.
  - rewrite handleSend_messages by assumption.
    unfold Gemini.streamFromGemini. rewrite K. cbn [calls join fold_right].
    now rewrite append_nil_r.
Qed.

(** After a send on a history without a streaming message, what is stored
    is the whole message list, the new turn included, and loading the page
    again gives that list back. *)
Theorem history_survives_reload env t i w :
  accepted t i ->
  all_committed (messages w) ->
  let w' := handleSend env t i w in
  storage w' = Some (messages w')
  /\ forall rq, messages (mount (storage w') rq) = messages w'.
Proof.
  intros G C w'.
  assert (M : messages w' = messages w ++ [userMessage t i;
             mkMessage Assistant
               (join (calls (streamFromGemini env (or_else t "Analyze this image.") i
                               (filter committed (messagesRef w))))) None (Some false)])
    by (now apply handleSend_messages).
  assert (A : filter committed (messages w') = messages w').
  { apply forallb_filter_id. rewrite M, forallb_app. unfold all_committed in C.
    now rewrite C. }
  assert (S : storage w' = Some (messages w')).
  { subst w'. unfold GeminiChat.handleSend in *. rewrite G in *. cbv zeta in *.
    rewrite streamFromGemini_fulfilled in *.
    change (storage (set_isLoading false ?x)) with (storage x).
    change (messages (set_isLoading false ?x)) with (messages x) in A, M |- *.
    unfold send_done in *. rewrite effect_messages_messages in *.
    rewrite effect_messages_writes; rewrite A; [reflexivity|].
    rewrite M. now destruct (messages w). }
  split; [exact S|]. intros rq. now rewrite S, mount_messages.
Qed.

End Component.

(** Clearing empties the message list and removes the stored history; a
    load that follows starts with no message.  No request is made. *)
Theorem clear_then_reload_is_empty w rq :
  messages (handleClear w) = []
  /\ storage (handleClear w) = None
  /\ pendingImage (handleClear w) = None
  /\ sent (handleClear w) = sent w
  /\ messages (mount (storage (handleClear w)) rq) = [].
Proof. repeat split. Qed.


(** A clear does not stop the stream that is being read, but what arrives
    after it is dropped: the chunks, and the end of the stream (or its
    failure), leave the message list empty and the storage removed. *)
Theorem chunks_after_clear_are_dropped w cs acc :
  let w1 := snd (deliver cs acc (handleClear w)) in
  messages w1 = [] /\ storage w1 = None
  /\ messages (send_done w1) = [] /\ storage (send_done w1) = None
  /\ forall msg, messages (send_failed msg w1) = [] /\ storage (send_failed msg w1) = None.
Proof.
  assert (D : forall cs acc w0, messages w0 = [] -> storage w0 = None ->
            messages (snd (deliver cs acc w0)) = []
            /\ storage (snd (deliver cs acc w0)) = None).
  { clear. induction cs as [|c cs IH]; intros acc w0 M S; simpl; [now split|].
    apply IH.
    - now rewrite on_chunk_messages, M.
    - unfold on_chunk. rewrite effect_messages_keeps; [exact S|].
      unfold setMessages. cbn [messages set_messages]. now rewrite M. }
  intros w1. destruct (D cs acc (handleClear w) eq_refl eq_refl) as [M S].
  fold w1 in M, S. split; [exact M|]. split; [exact S|].
  assert (K : forall f, messages (effect_messages (setMessages (map_last f) w1)) = []
                        /\ storage (effect_messages (setMessages (map_last f) w1)) = None).
  { intros f. split.
    - rewrite effect_messages_messages. unfold setMessages.
      cbn [messages set_messages]. now rewrite M.
    - rewrite effect_messages_keeps; [exact S|].
      unfold setMessages. cbn [messages set_messages]. now rewrite M. }
  split; [apply (K with_done)|]. split; [apply (K with_done)|].
  intros msg. apply (K (fun _ => errorMessage msg)).
Qed.

Import Samples.

Lemma send_always_ends_turn_refused :
  isLoading (handleSend plain_delta refused_env "hi" None first_load) = false.
Proof.
  destruct (send_always_ends_turn plain_delta refused_env "hi" None first_load eq_refl)
    as [_ [H _]].
  exact H.
Defined.

Lemma missing_key_sends_nothing_sample :
  sent (handleSend plain_delta (mkEnv (Some "your_openrouter_api_key_here")
                                      (FetchRejected "offline")) "hi" None first_load)
  = [].
Proof.
  destruct (missing_key_sends_nothing plain_delta
              (mkEnv (Some "your_openrouter_api_key_here") (FetchRejected "offline"))
              "hi" None first_load eq_refl eq_refl) as [H _].
  exact H.
Defined.

Lemma history_survives_reload_sample :
  messages (mount (storage (handleSend plain_delta (good_env hello_reads) "hi" None
                              (turns 2 first_load))) [])
  = messages (handleSend plain_delta (good_env hello_reads) "hi" None (turns 2 first_load)).
Proof.
  destruct (history_survives_reload plain_delta (good_env hello_reads) "hi" None
              (turns 2 first_load) eq_refl eq_refl) as [_ H].
  exact (H []).
Defined.


End ChatMore.

(** ** More on the viewer: drags and zoom *)

Module ViewerMore.

Import Regex Viewer CaptureSpec.

(** The difference of a number and itself is 0, or NaN: never above 10. *)
Lemma sub_self_not_above (a : PrimFloat.float) :
  gt (PrimFloat.abs (PrimFloat.sub a a)) Number.ten = false.
Proof.
  unfold gt, Number.ten.
  rewrite FloatAxioms.ltb_spec, FloatAxioms.abs_spec, FloatAxioms.sub_spec.
  destruct (FloatOps.Prim2SF a) as [s | s | | s m e].
  - now destruct s.
  - now destruct s.
  - reflexivity.
  - unfold FloatAxioms.SF64sub, SpecFloat.SFsub. rewrite Z.sub_diag. reflexivity.
Qed.

Lemma last_map {A B : Type} (f : A -> B) (l : list A) (d : A) :
  last (map f l) (f d) = f (last l d).
Proof.
  induction l as [|a l IH]; [reflexivity|].
  destruct l as [|a' l]; [reflexivity|]. exact IH.
Qed.

Lemma last_default {A : Type} (a : A) (l : list A) (d d' : A) :
  last (a :: l) d = last (a :: l) d'.
Proof.
  revert a. induction l as [|b l IH]; intros a; [reflexivity|].
  exact (IH b).
Qed.

(** The moves of a drag keep its start and leave its end at the last of
    them; nothing else changes. *)
Lemma moves_drag dom ms : forall st d pg,
  isSelecting st = true -> selectionRect st = Some d ->
  pageRefs dom (pageNum d) = Some pg ->
  moves dom ms st
  = set_selectionRect
      (Some (mkDragRect (startX d) (startY d)
                        (fst (last (map at_page ms) (endX d, endY d)))
                        (snd (last (map at_page ms) (endX d, endY d)))
                        (pageNum d)))
      st.
Proof.
  induction ms as [|m ms IH]; intros st d pg I R P.
  - destruct st, d. simpl in *. now subst.
  - change (moves dom (m :: ms) st)
      with (moves dom ms (handleMouseMove dom (fst m) (snd m) st)).
    unfold handleMouseMove. rewrite I, R, P.
    rewrite (IH _ (mkDragRect (startX d) (startY d)
                     (PrimFloat.sub (clientX (snd m)) (bounds_left (fst m)))
                     (PrimFloat.sub (clientY (snd m)) (bounds_top (fst m)))
                     (pageNum d)) pg);
      [|assumption|reflexivity|exact P].
    cbn [startX startY endX endY pageNum].
    destruct ms as [|m' ms]; [reflexivity|]. cbn [map].
    now rewrite (last_default (at_page m') (map at_page ms)
                   (PrimFloat.sub (clientX (snd m)) (bounds_left (fst m)),
                    PrimFloat.sub (clientY (snd m)) (bounds_top (fst m)))
                   (endX d, endY d)).
Qed.

(** The listener of the document changes the selection and the calls made
    to the parent, and reads nothing else of the state. *)
Lemma handleTextSelection_frame text st :
  isSelecting (handleTextSelection text st) = isSelecting st
  /\ selectionRect (handleTextSelection text st) = selectionRect st
  /\ annotations (handleTextSelection text st) = annotations st.
Proof.
  unfold handleTextSelection. destruct (option_map trim text) as [[|c l]|]; now repeat split.
Qed.

Lemma handleTextSelection_same text st st' :
  emitted st' = emitted st -> selection st' = selection st ->
  emitted (handleTextSelection text st') = emitted (handleTextSelection text st)
  /\ selection (handleTextSelection text st') = selection (handleTextSelection text st).
Proof.
  intros E S. unfold handleTextSelection.
  destruct (option_map trim text) as [[|c l]|]; try (now split).
  cbn [emitted selection onSelectionChange set_selection]. now rewrite E.
Qed.

(** The end of a drag that is not above the threshold. *)
Lemma handleMouseUp_small dom st d :
  isSelecting st = true -> selectionRect st = Some d ->
  above_threshold (normalize d) = false ->
  handleMouseUp dom st = set_selectionRect None (set_isSelecting false st).
Proof.
  intros I R T. rewrite (handleMouseUp_dragging dom st d I R).
  now rewrite (region_selection_small dom d T).
Qed.

(** When no drag is pending, a press followed by a release with no move
    between them makes no region selection, with or without the control
    key or the right button: after [handleMouseDown] and [handleMouseUp] the
    selection, the annotations and the calls made to the parent are what
    they were, and no drag is pending.  With the listener of the document,
    [handleTextSelection], run on the release as well, before or after
    [handleMouseUp], the selection and the calls made are those of that
    listener alone: none when no text is selected in the window. *)
Theorem click_never_selects dom b e n text st :
  isSelecting st = false ->
  let pressed := handleMouseDown dom b e n st in
  let released := handleMouseUp dom pressed in
  (emitted released = emitted st
   /\ selection released = selection st
   /\ annotations released = annotations st
   /\ isSelecting released = false)
  /\ (forall st',
        st' = handleTextSelection text released
        \/ st' = handleMouseUp dom (handleTextSelection text pressed) ->
        emitted st' = emitted (handleTextSelection text st)
        /\ selection st' = selection (handleTextSelection text st)
        /\ annotations st' = annotations st
        /\ isSelecting st' = false).
Proof.
  intros I pressed released.
  assert (P : (pressed = st /\ forall s, isSelecting s = false -> handleMouseUp dom s = s)
              \/ exists d, pressed = set_selectionRect (Some d) (set_isSelecting true st)
                           /\ above_threshold (normalize d) = false).
  { subst pressed. unfold handleMouseDown.
    destruct (ctrlKey e || (button e =? 2)%nat);
      [destruct (pageRefs dom n) as [pg|]|];
      try (left; split; [reflexivity|];
           intros s Hs; unfold handleMouseUp; now rewrite Hs).
    right. eexists. split; [reflexivity|].
    apply below_threshold_spec. left. apply sub_self_not_above. }
  assert (F : forall s, emitted s = emitted st -> selection s = selection st ->
                        annotations s = annotations st ->
                        (isSelecting s = false \/
                         exists d, isSelecting s = true /\ selectionRect s = Some d
                                   /\ above_threshold (normalize d) = false) ->
                        emitted (handleMouseUp dom s) = emitted st
                        /\ selection (handleMouseUp dom s) = selection st
                        /\ annotations (handleMouseUp dom s) = annotations st
                        /\ isSelecting (handleMouseUp dom s) = false).
  { intros s E S A [Hs|[d [Hs [Hr T]]]].
    - unfold handleMouseUp. rewrite Hs. now repeat split.
    - rewrite (handleMouseUp_small dom s d Hs Hr T). now repeat split. }
  assert (D : isSelecting pressed = false \/
              exists d, isSelecting pressed = true /\ selectionRect pressed = Some d
                        /\ above_threshold (normalize d) = false).
  { destruct P as [[-> _]|[d [-> T]]]; [now left|].
    right. exists d. now repeat split. }
  assert (Q : emitted pressed = emitted st /\ selection pressed = selection st
              /\ annotations pressed = annotations st).
  { destruct P as [[-> _]|[d [-> _]]]; now repeat split. }
  destruct Q as [Qe [Qs Qa]].
  pose proof (F pressed Qe Qs Qa D) as [Re [Rs [Ra Ri]]]. fold released in Re, Rs, Ra, Ri.
  split; [now repeat split|].
  intros st' [->| ->].
  - destruct (handleTextSelection_frame text released) as [Fi [_ Fa]].
    destruct (handleTextSelection_same text st released Re Rs) as [Te Ts].
    rewrite Fi, Fa. now repeat split.
  - destruct (handleTextSelection_frame text pressed) as [Fi [Fr Fa]].
    destruct (handleTextSelection_same text st pressed Qe Qs) as [Te Ts].
    set (s := handleTextSelection text pressed) in *.
    destruct D as [Hs|[d [Hs [Hr T]]]].
    + unfold handleMouseUp. rewrite Fi, Hs. rewrite Fa, Qa, Fi. now repeat split.
    + rewrite (handleMouseUp_small dom s d); [|now rewrite Fi|now rewrite Fr|exact T].
      cbn [emitted selection annotations isSelecting set_selectionRect set_isSelecting].
      rewrite Fa, Qa. now repeat split.
Qed.

(** On a page that has a canvas and for which a 2d context can be had, a
    press with the control key (or the right button), moves, and a release
    select the rectangle between the place of the press and the place of
    the last move, as the code computes it, when its width and height are
    above 10 (and finite): that rectangle and the image of it are handed to
    the parent, and the drag is over. *)
Theorem ctrl_drag_selects_rectangle dom b e ms n st canvas r :
  ctrlKey e || (button e =? 2)%nat = true ->
  pageRefs dom n = Some (WithCanvas canvas) -> context2d dom = true ->
  let box := normalize (gesture (b, e) ms n) in
  gt (nwidth box) Number.ten = true -> gt (nheight box) Number.ten = true ->
  to_rect box = Some r ->
  let sel := mkSelection RegionSel (region_content n) n (Some (capture canvas box))
                         (Some r) in
  handleMouseUp dom (moves dom ms (handleMouseDown dom b e n st))
  = set_selectionRect None
      (set_isSelecting false (onSelectionChange (Some sel) (set_selection (Some sel) st))).
Proof.
  intros C P X box W H F sel. unfold handleMouseDown. rewrite C, P.
  match goal with |- context [moves dom ms ?s] =>
    rewrite (moves_drag dom ms s
               (mkDragRect (PrimFloat.sub (clientX e) (bounds_left b))
                           (PrimFloat.sub (clientY e) (bounds_top b))
                           (PrimFloat.sub (clientX e) (bounds_left b))
                           (PrimFloat.sub (clientY e) (bounds_top b)) n)
               (WithCanvas canvas) eq_refl eq_refl P) end.
  cbn [startX startY endX endY pageNum].
  change (PrimFloat.sub (clientX e) (bounds_left b),
          PrimFloat.sub (clientY e) (bounds_top b)) with (at_page (b, e)).
  rewrite last_map.
  match goal with |- handleMouseUp dom ?s = _ =>
    rewrite (handleMouseUp_dragging dom s (gesture (b, e) ms n) eq_refl eq_refl) end.
  rewrite (region_selection_valid dom (gesture (b, e) ms n) canvas r P X
             (proj2 (above_threshold_spec _) (conj W H)) F).
  reflexivity.
Qed.

Local Open Scope Q_scope.

Lemma zoom_in_bounds (z : Zoom) (s : Q) :
  (5 # 10) <= s <= (25 # 10) -> (5 # 10) <= zoom z s <= (25 # 10).
Proof.
  intros [L U]. destruct z; cbn [zoom]; unfold zoomIn, zoomOut; split.
  - apply Q.min_glb; [|discriminate].
    apply (Qle_trans _ (s + 0)); [now rewrite Qplus_0_r|].
    apply Qplus_le_compat; [apply Qle_refl | discriminate].
  - apply Q.le_min_r.
  - apply Q.le_max_r.
  - apply Q.max_lub; [|discriminate].
    apply (Qle_trans _ (s - 0)); [|unfold Qminus; now rewrite Qplus_0_r].
    unfold Qminus. apply Qplus_le_compat; [apply Qle_refl | discriminate].
Qed.

(** However the zoom buttons are pressed, the scale stays between 0.5 and
    2.5. *)
Theorem zoom_stays_in_bounds (zs : list Zoom) :
  (5 # 10) <= zooms zs initial_scale <= (25 # 10).
Proof.
  unfold zooms.
  assert (G : forall s, (5 # 10) <= s <= (25 # 10) ->
                        (5 # 10) <= fold_left (fun s z => zoom z s) zs s <= (25 # 10)).
  { induction zs as [|z zs IH]; intros s B; [exact B|].
    apply IH. now apply zoom_in_bounds. }
  apply G. split; discriminate.
Qed.

Lemma click_never_selects_sample :
  emitted (handleMouseUp Samples.retina_dom
             (handleMouseDown Samples.retina_dom
                (mkBounds (Number.of_Z 8) (Number.of_Z 8))
                (mkMouseEvent true 0 (Number.of_Z 100) (Number.of_Z 100)) 1 (mount None)))
  = [].
Proof.
  destruct (click_never_selects Samples.retina_dom
              (mkBounds (Number.of_Z 8) (Number.of_Z 8))
              (mkMouseEvent true 0 (Number.of_Z 100) (Number.of_Z 100)) 1 None (mount None)
              eq_refl) as [[H _] _].
  exact H.
Defined.

Lemma ctrl_drag_selects_rectangle_sample :
  selection (handleMouseUp Samples.retina_dom
               (moves Samples.retina_dom
                  [(mkBounds (Number.of_Z 8) (Number.of_Z 8),
                    mkMouseEvent true 0 (Number.of_Z 60) (Number.of_Z 40));
                   (mkBounds (Number.of_Z 8) (Number.of_Z 8),
                    mkMouseEvent true 0 (Number.of_Z 128) (Number.of_Z 88))]
                  (handleMouseDown Samples.retina_dom
                     (mkBounds (Number.of_Z 8) (Number.of_Z 8))
                     (mkMouseEvent true 0 (Number.of_Z 28) (Number.of_Z 38)) 1
                     (mount None))))
  = Some Samples.wide_region.
Proof.
  rewrite (ctrl_drag_selects_rectangle Samples.retina_dom
             (mkBounds (Number.of_Z 8) (Number.of_Z 8))
             (mkMouseEvent true 0 (Number.of_Z 28) (Number.of_Z 38))
             [(mkBounds (Number.of_Z 8) (Number.of_Z 8),
               mkMouseEvent true 0 (Number.of_Z 60) (Number.of_Z 40));
              (mkBounds (Number.of_Z 8) (Number.of_Z 8),
               mkMouseEvent true 0 (Number.of_Z 128) (Number.of_Z 88))]
             1 (mount None) Samples.retina (mkRect 20 30 100 50)
             eq_refl eq_refl eq_refl eq_refl eq_refl eq_refl).
  reflexivity.
Defined.

End ViewerMore.

(** ** More on the annotation store *)

Module AnnotationMore.

Import Regex Viewer AnnotationSpec.

Lemma effect_annotations_selection st :
  selection (effect_annotations st) = selection st.
Proof. unfold effect_annotations. now destruct (_ <? _)%nat. Qed.

Lemma filter_twice {A : Type} (p : A -> bool) (l : list A) :
  filter p (filter p l) = filter p l.
Proof. apply forallb_filter_id, forallb_filter. Qed.

(** The callback [addAnnotation] reads the selection of the render that
    made it.  Once it has made an annotation from a region selection the
    selection is cleared, and the callback of the next render adds nothing;
    [window.addPdfAnnotation] however is assigned only while there is a
    selection, so it remains the callback of the earlier render, and that
    callback, called again, adds a second annotation of the same region,
    which is written to the storage as well. *)
Theorem stale_press_adds_again sel r n1 s1 nt1 n2 s2 nt2 w st :
  selection st = Some sel -> rect sel = Some r -> pageNumber sel <> 0%nat ->
  let st1 := addAnnotation n1 s1 nt1 st in
  let exposed := effect_expose st1 (effect_expose st w) in
  let st2 := addAnnotationOf exposed n2 s2 nt2 st1 in
  selection st1 = None
  /\ addAnnotation n2 s2 nt2 st1 = st1
  /\ exposed = Some sel
  /\ annotations st2
     = annotations st
       ++ [mkAnnotation (timestamp_id n1) (pageNumber sel) r (status_name s1) nt1
                        (content sel) n1;
           mkAnnotation (timestamp_id n2) (pageNumber sel) r (status_name s2) nt2
                        (content sel) n2]
  /\ stored st2 = Some (map stringify (annotations st2)).
Proof.
  intros S R P st1 exposed st2.
  apply Nat.eqb_neq in P.
  assert (S1 : selection st1 = None).
  { subst st1. unfold addAnnotation, addAnnotationOf. rewrite S, R, P.
    now rewrite effect_annotations_selection. }
  assert (A1 : annotations st1
               = annotations st
                 ++ [mkAnnotation (timestamp_id n1) (pageNumber sel) r (status_name s1)
                                  nt1 (content sel) n1]).
  { subst st1. unfold addAnnotation, addAnnotationOf. rewrite S, R, P.
    now rewrite effect_annotations_annotations. }
  assert (E : exposed = Some sel).
  { subst exposed. unfold effect_expose. now rewrite S1, S. }
  assert (A2 : annotations st2
               = annotations st1
                 ++ [mkAnnotation (timestamp_id n2) (pageNumber sel) r (status_name s2)
                                  nt2 (content sel) n2]).
  { subst st2. rewrite E. unfold addAnnotationOf. rewrite R, P.
    now rewrite effect_annotations_annotations. }
  split; [exact S1|]. split.
  { unfold addAnnotation, addAnnotationOf. now rewrite S1. }
  split; [exact E|]. split.
  { rewrite A2, A1, <- app_assoc. reflexivity. }
  rewrite A2. subst st2. rewrite E. unfold addAnnotationOf. rewrite R, P.
  unfold effect_annotations.
  cbn [annotations set_annotations set_selection onSelectionChange set_stored stored].
  rewrite length_app, Nat.add_comm. reflexivity.
Qed.

Lemma stale_press_adds_again_sample :
  List.length
    (annotations
       (addAnnotationOf (Some Samples.wide_region) 2000 Pending None
          (addAnnotation 1000 Complete None
             (set_selection (Some Samples.wide_region) (mount None)))))
  = 2%nat.
Proof.
  destruct (stale_press_adds_again Samples.wide_region (mkRect 20 30 100 50)
              1000 Complete None 2000 Pending None None
              (set_selection (Some Samples.wide_region) (mount None))
              eq_refl eq_refl ltac:(discriminate)) as [_ [_ [E [A _]]]].
  rewrite E in A. rewrite A. reflexivity.
Defined.

(** Deleting removes every annotation with the id and no other, keeps the
    order, and writes the collection at once, also when it has become
    empty: a load that follows gives the list as it is after the deletion.
    Deleting again changes nothing. *)
Theorem delete_is_persisted i st :
  let st' := deleteAnnotation i st in
  annotations st' = filter (fun a => negb (id a =? i)%string) (annotations st)
  /\ stored st' = Some (map stringify (annotations st'))
  /\ annotations (mount (stored st')) = annotations st'
  /\ deleteAnnotation i st' = st'.
Proof.
  intros st'.
  assert (A : annotations st'
              = filter (fun a => negb (id a =? i)%string) (annotations st)).
  { subst st'. unfold deleteAnnotation. now rewrite effect_annotations_annotations. }
  assert (S : stored st' = Some (map stringify (annotations st'))).
  { rewrite A. subst st'. unfold deleteAnnotation, effect_annotations.
    cbn [annotations set_annotations set_stored].
    now destruct (0 <? _)%nat. }
  split; [exact A|]. split; [exact S|]. split.
  - now rewrite S, mount_annotations, restore_stringify.
  - clear A S. subst st'. unfold deleteAnnotation.
    set (k := filter (fun a => negb (id a =? i)%string) (annotations st)).
    set (X := set_stored (Some (map stringify k)) (set_annotations k st)).
    assert (AX : annotations (effect_annotations X) = k)
      by (now rewrite effect_annotations_annotations).
    rewrite AX. unfold k at 1 2. rewrite filter_twice. fold k.
    unfold effect_annotations, X. cbn [annotations set_annotations set_stored].
    destruct (0 <? List.length k)%nat eqn:E;
      cbn [annotations set_annotations set_stored]; rewrite ?E; reflexivity.
Qed.

(** A mark made from the toolbar is written under the key of the viewer,
    without a [rect] and with at most 100 characters of the selection: the
    viewer never shows it, and when the viewer has annotations of its own
    its next write removes the mark from the storage. *)
Theorem toolbar_mark_is_lost now m nt sel saved :
  let saved' := Toolbar.saveAnnotation now m nt sel saved in
  (exists old mark,
     saved' = Some (old ++ [mark])
     /\ old = match saved with Some l => l | None => [] end
     /\ s_rect mark = None
     /\ (List.length (s_content mark) <= 100)%nat)
  /\ annotations (mount saved') = annotations (mount saved)
  /\ (annotations (mount saved) <> [] -> stored (mount saved') = stored (mount saved)).
Proof.
  intros saved'.
  assert (A : annotations (mount saved') = annotations (mount saved)).
  { subst saved'. rewrite !mount_annotations. unfold Toolbar.saveAnnotation.
    rewrite restore_app. cbn [restore flat_map s_rect]. rewrite !app_nil_r.
    now destruct saved. }
  split; [|split; [exact A|]].
  - eexists. eexists. split; [reflexivity|]. split; [reflexivity|].
    split; [reflexivity|]. cbn [s_content]. apply firstn_le_length.
  - intros N. destruct saved as [l|]; [|now contradiction N].
    subst saved'. unfold Toolbar.saveAnnotation, mount in *.
    rewrite effect_annotations_annotations in *.
    cbn [annotations set_annotations] in *.
    rewrite !effect_annotations_nonempty;
      cbn [annotations set_annotations]; try assumption.
    + rewrite restore_app. cbn [restore flat_map s_rect]. now rewrite !app_nil_r.
    + rewrite restore_app. cbn [restore flat_map s_rect]. now rewrite !app_nil_r.
Qed.

Lemma toolbar_mark_is_lost_sample :
  stored (mount (Toolbar.saveAnnotation 5000 Toolbar.Correct None Samples.words
                   (stored (creates Samples.three_creations (mount None)))))
  = stored (creates Samples.three_creations (mount None)).
Proof.
  destruct (toolbar_mark_is_lost 5000 Toolbar.Correct None Samples.words
              (stored (creates Samples.three_creations (mount None)))) as [_ [_ H]].
  rewrite H; [vm_compute; reflexivity | vm_compute; discriminate].
Defined.

End AnnotationMore.

(** ** More on the document registry *)

Module DbMore.

Import Db.

Lemma find_app_none {A : Type} (p : A -> bool) (l l' : list A) :
  find p l = None -> find p (l ++ l') = find p l'.
Proof.
  induction l as [|a l IH]; [reflexivity|]. simpl.
  destruct (p a); [discriminate | exact IH].
Qed.

Lemma find_over_app {A : Type} (p : A -> bool) (l l' : list A) :
  find p (l ++ l') = match find p l with Some a => Some a | None => find p l' end.
Proof.
  induction l as [|a l IH]; [reflexivity|]. simpl.
  destruct (p a); [reflexivity | exact IH].
Qed.

Lemma find_none_below {A : Type} (key : A -> nat) (n : nat) (l : list A) :
  Forall (fun a => (key a < n)%nat) l -> find (fun a => (key a =? n)%nat) l = None.
Proof.
  induction 1 as [|a l Ha _ IH]; [reflexivity|]. simpl.
  destruct (Nat.eqb_spec (key a) n); [lia | exact IH].
Qed.

Lemma find_filter_out {A : Type} (key : A -> nat) (i : nat) (l : list A) :
  find (fun a => (key a =? i)%nat) (filter (fun a => negb (key a =? i)%nat) l) = None.
Proof.
  induction l as [|a l IH]; [reflexivity|]. simpl.
  destruct (key a =? i)%nat eqn:E; simpl; [exact IH | now rewrite E].
Qed.

Lemma find_filter_other {A : Type} (key : A -> nat) (i j : nat) (l : list A) :
  j <> i ->
  find (fun a => (key a =? j)%nat) (filter (fun a => negb (key a =? i)%nat) l)
  = find (fun a => (key a =? j)%nat) l.
Proof.
  intros N. induction l as [|a l IH]; [reflexivity|]. simpl.
  destruct (Nat.eqb_spec (key a) i) as [E|E]; simpl.
  - destruct (Nat.eqb_spec (key a) j); [lia | exact IH].
  - now rewrite IH.
Qed.

Lemma filter_filter_out {A : Type} (p : A -> bool) (l : list A) :
  filter (fun a => negb (p a)) (filter (fun a => negb (p a)) l)
  = filter (fun a => negb (p a)) l.
Proof. apply forallb_filter_id. apply (forallb_filter (fun a => negb (p a))). Qed.

Lemma map_update_first {A B : Type} (key : A -> B) (p : A -> bool) (g : A -> A)
    (l : list A) :
  (forall a, key (g a) = key a) -> map key (update_first p g l) = map key l.
Proof.
  intros K. induction l as [|a l IH]; [reflexivity|]. simpl.
  destruct (p a); simpl; [now rewrite K | now rewrite IH].
Qed.

Lemma find_update_first {A : Type} (key : A -> nat) (i : nat) (g : A -> A) (l : list A) :
  (forall a, key (g a) = key a) ->
  find (fun a => (key a =? i)%nat) (update_first (fun a => (key a =? i)%nat) g l)
  = option_map g (find (fun a => (key a =? i)%nat) l).
Proof.
  intros K. induction l as [|a l IH]; [reflexivity|]. simpl.
  destruct (key a =? i)%nat eqn:E; simpl; [now rewrite K, E | now rewrite E].
Qed.

Lemma find_update_other {A : Type} (key : A -> nat) (i j : nat) (g : A -> A) (l : list A) :
  (forall a, key (g a) = key a) -> j <> i ->
  find (fun a => (key a =? j)%nat) (update_first (fun a => (key a =? i)%nat) g l)
  = find (fun a => (key a =? j)%nat) l.
Proof.
  intros K N. induction l as [|a l IH]; [reflexivity|]. simpl.
  destruct (Nat.eqb_spec (key a) i) as [E|E]; simpl.
  - rewrite K. destruct (Nat.eqb_spec (key a) j); [lia | reflexivity].
  - now rewrite IH.
Qed.

Lemma NoDup_map_filter {A B : Type} (key : A -> B) (p : A -> bool) (l : list A) :
  NoDup (map key l) -> NoDup (map key (filter p l)).
Proof.
  induction l as [|a l IH]; intros H; [constructor|].
  simpl in H. inversion H as [|? ? Hn Hd]; subst. simpl.
  destruct (p a); [|now apply IH]. simpl. constructor; [|now apply IH].
  intros I. apply Hn. apply in_map_iff in I. destruct I as [b [Eb Ib]].
  apply filter_In in Ib. apply in_map_iff. exists b. now split; [|apply Ib].
Qed.

Lemma Forall_filter_keeps {A : Type} (P : A -> Prop) (p : A -> bool) (l : list A) :
  Forall P l -> Forall P (filter p l).
Proof.
  intros H. apply Forall_forall. intros a I. apply filter_In in I.
  rewrite Forall_forall in H. now apply H.
Qed.

Lemma fresh_snoc {A : Type} (key : A -> nat) (l : list A) (a : A) :
  fresh key l (key a) -> fresh key (l ++ [a]) (S (key a)).
Proof.
  intros [F N]. split.
  - apply Forall_app. split; [|constructor; [lia | constructor]].
    eapply Forall_impl; [|exact F]. simpl. intros; lia.
  - rewrite map_app. simpl. apply NoDup_app; [exact N | repeat constructor; now intros [] |].
    intros k I [E|[]]. subst k. apply in_map_iff in I. destruct I as [b [Eb Ib]].
    rewrite Forall_forall in F. specialize (F b Ib). lia.
Qed.

Lemma fresh_filter {A : Type} (key : A -> nat) (p : A -> bool) (l : list A) (n : nat) :
  fresh key l n -> fresh key (filter p l) n.
Proof.
  intros [F N]. split; [now apply Forall_filter_keeps | now apply NoDup_map_filter].
Qed.

Lemma fresh_update {A : Type} (key : A -> nat) (p : A -> bool) (g : A -> A)
    (l : list A) (n : nat) :
  (forall a, key (g a) = key a) -> fresh key l n -> fresh key (update_first p g l) n.
Proof.
  intros K [F N]. split.
  - apply (Forall_map key (fun k => (k < n)%nat)).
    rewrite map_update_first by exact K. now apply Forall_map.
  - now rewrite map_update_first.
Qed.

Lemma fresh_ids_split db :
  fresh_ids db <-> fresh id (pdfs db) (nextPdfId db)
                   /\ fresh a_id (annotations db) (nextAnnotationId db).
Proof. unfold fresh_ids, fresh. tauto. Qed.

Lemma run_op_fresh f op : fresh_ids (loadDb f) -> fresh_ids (loadDb (run_op f op)).
Proof.
  intros H. pose proof H as H0. apply fresh_ids_split in H. destruct H as [P A].
  destruct op as [now nm fd | i | now i | now i st | now pid c st nt pg ty
                 | i st | i nt | i]; cbn [run_op].
  - apply fresh_ids_split. cbn [create fst loadDb saveDb pdfs annotations
                                nextPdfId nextAnnotationId].
    split; [|exact A].
    exact (fresh_snoc id (pdfs (loadDb f))
             (mkPDF (nextPdfId (loadDb f)) nm fd "none" now now) P).
  - apply fresh_ids_split. cbn [delete loadDb saveDb pdfs annotations
                                nextPdfId nextAnnotationId].
    split; now apply fresh_filter.
  - unfold updateTimestamp. destruct (find _ _); [|exact H0].
    apply fresh_ids_split. cbn [loadDb saveDb pdfs annotations nextPdfId nextAnnotationId].
    split; [now apply fresh_update | exact A].
  - unfold updateStatus. destruct (find _ _); [|exact H0].
    apply fresh_ids_split. cbn [loadDb saveDb pdfs annotations nextPdfId nextAnnotationId].
    split; [now apply fresh_update | exact A].
  - apply fresh_ids_split. cbn [annotationOps.create fst loadDb saveDb pdfs annotations
                                nextPdfId nextAnnotationId].
    split; [exact P|].
    exact (fresh_snoc a_id (annotations (loadDb f))
             (mkAnnotation (nextAnnotationId (loadDb f)) pid c st nt pg ty now) A).
  - unfold annotationOps.updateStatus. destruct (find _ _); [|exact H0].
    apply fresh_ids_split. cbn [loadDb saveDb pdfs annotations nextPdfId nextAnnotationId].
    split; [exact P | now apply fresh_update].
  - unfold annotationOps.updateNote. destruct (find _ _); [|exact H0].
    apply fresh_ids_split. cbn [loadDb saveDb pdfs annotations nextPdfId nextAnnotationId].
    split; [exact P | now apply fresh_update].
  - apply fresh_ids_split. cbn [annotationOps.delete loadDb saveDb pdfs annotations
                                nextPdfId nextAnnotationId].
    split; [exact P | now apply fresh_filter].
Qed.

(** However the registry is used, the ids of the PDFs, and those of the
    annotations, stay distinct and below the next id to give out: an id is
    never given twice, not even after a deletion. *)
Theorem ids_stay_fresh (ops : list Op) : forall f,
  fresh_ids (loadDb f) -> fresh_ids (loadDb (run ops f)).
Proof.
  unfold run. induction ops as [|op ops IH]; intros f H; [exact H|].
  apply IH. now apply run_op_fresh.
Qed.

(** A PDF that is created gets the next id, comes last in the list, and is
    what a lookup of that id gives, bytes included. *)
Theorem create_then_get now nm fileData f :
  fresh_ids (loadDb f) ->
  let f' := fst (create now nm fileData f) in
  let i := snd (create now nm fileData f) in
  i = nextPdfId (loadDb f)
  /\ getById i f' = Some (mkPDF i nm fileData "none" now now)
  /\ getAll f' = getAll f ++ [mkPDFInfo i nm "none" now now]
  /\ forall j, j <> i -> getById j f' = getById j f.
Proof.
  intros [[F _] _] f' i. subst f' i.
  cbn [create fst snd id]. unfold getById, getAll.
  cbn [loadDb saveDb pdfs].
  split; [reflexivity|]. split; [|split].
  - rewrite find_app_none by (now apply find_none_below).
    simpl. now rewrite Nat.eqb_refl.
  - now rewrite map_app.
  - intros j N. rewrite find_over_app.
    destruct (find _ (pdfs (loadDb f))); [reflexivity|].
    simpl. destruct (Nat.eqb_spec (nextPdfId (loadDb f)) j); [congruence | reflexivity].
Qed.

(** Deleting a PDF removes it and every annotation made on it, and leaves
    the other PDFs and their annotations as they are; deleting it again
    changes nothing. *)
Theorem delete_cascades i f :
  let f' := delete i f in
  getById i f' = None
  /\ annotationOps.getByPdfId i f' = []
  /\ (forall j, j <> i ->
        getById j f' = getById j f
        /\ annotationOps.getByPdfId j f' = annotationOps.getByPdfId j f)
  /\ delete i f' = f'.
Proof.
  intros f'. subst f'. unfold getById, annotationOps.getByPdfId, delete.
  cbn [loadDb saveDb pdfs annotations nextPdfId nextAnnotationId].
  split; [apply (find_filter_out id)|]. split; [|split].
  - induction (annotations (loadDb f)) as [|a l IH]; [reflexivity|]. simpl.
    destruct (pdf_id a =? i)%nat eqn:E; simpl; [exact IH | now rewrite E].
  - intros j N. split; [now apply (find_filter_other id)|].
    induction (annotations (loadDb f)) as [|a l IH]; [reflexivity|]. simpl.
    destruct (Nat.eqb_spec (pdf_id a) i) as [E|E]; simpl.
    + destruct (Nat.eqb_spec (pdf_id a) j); [lia | exact IH].
    + now rewrite IH.
  - unfold saveDb. f_equal. f_equal.
    + apply (filter_filter_out (fun p => (id p =? i)%nat)).
    + apply (filter_filter_out (fun a => (pdf_id a =? i)%nat)).
Qed.

(** Setting the status of a PDF changes the status and the time of update
    of that PDF and of no other; when there is no PDF of that id the file
    is not written. *)
Theorem updateStatus_changes_one now i st f :
  match getById i f with
  | Some p =>
      getById i (updateStatus now i st f)
      = Some (mkPDF (id p) (name p) (file_data p) st (uploaded_at p) now)
  | None => updateStatus now i st f = f
  end
  /\ (forall j, j <> i -> getById j (updateStatus now i st f) = getById j f)
  /\ map id (pdfs (loadDb (updateStatus now i st f))) = map id (pdfs (loadDb f))
  /\ annotations (loadDb (updateStatus now i st f)) = annotations (loadDb f).
Proof.
  unfold getById, updateStatus.
  destruct (find (fun p => (id p =? i)%nat) (pdfs (loadDb f))) as [p|] eqn:E.
  - cbn [loadDb saveDb pdfs annotations]. split; [|split; [|split]].
    + rewrite (find_update_first id) by reflexivity. now rewrite E.
    + intros j N. now apply (find_update_other id).
    + now apply map_update_first.
    + reflexivity.
  - repeat split.
Qed.

(** A file that is missing or cannot be read is an empty registry to every
    call, whose first write replaces it: the first PDF created gets id 1. *)
Theorem unreadable_file_is_empty (op : Op) :
  getAll Unreadable = [] /\ getAll Missing = []
  /\ loadDb (run_op Unreadable op) = loadDb (run_op (Holds (mkDatabase [] [] 1 1)) op)
  /\ loadDb (run_op Missing op) = loadDb (run_op (Holds (mkDatabase [] [] 1 1)) op)
  /\ forall now nm fileData,
       create now nm fileData Unreadable
       = (Holds (mkDatabase [mkPDF 1 nm fileData "none" now now] [] 2 1), 1%nat).
Proof.
  split; [reflexivity|]. split; [reflexivity|].
  split; [now destruct op|]. split; [now destruct op | reflexivity].
Qed.

Lemma ids_stay_fresh_sample :
  fresh_ids (loadDb (run [Create "t1" "a.pdf" "AAAA"; Create "t2" "b.pdf" "BBBB";
                          Delete 2; Create "t3" "c.pdf" "CCCC";
                          Annotate "t4" 3 "text" "pending" None 1 "text"]
                         Missing)).
Proof.
  apply (ids_stay_fresh _ Missing). repeat split; constructor.
Defined.

Lemma delete_cascades_library :
  getById 1 (delete 2 Samples.library) = getById 1 Samples.library.
Proof.
  destruct (delete_cascades 2 Samples.library) as [_ [_ [H _]]].
  destruct (H 1%nat) as [G _]; [discriminate | exact G].
Defined.

Lemma updateStatus_changes_one_library :
  getById 1 (updateStatus "2025-03-01" 2 "complete" Samples.library)
  = getById 1 Samples.library.
Proof.
  destruct (updateStatus_changes_one "2025-03-01" 2 "complete" Samples.library)
    as [_ [H _]].
  apply H. discriminate.
Defined.

Lemma create_then_get_library :
  getById 3 (fst (create "2025-03-01" "c.pdf" "JVBERi0z" Samples.library))
  = Some (mkPDF 3 "c.pdf" "JVBERi0z" "none" "2025-03-01" "2025-03-01").
Proof.
  destruct (create_then_get "2025-03-01" "c.pdf" "JVBERi0z" Samples.library)
    as [_ [H _]]; [|exact H].
  repeat split; repeat constructor; simpl; lia.
Defined.

End DbMore.

(** ** The route of one PDF *)

Module RouteSpec.

Import Js Db Route DbMore.

Lemma valid_status_spec (s : string) :
  existsb (String.eqb s) statuses = true <-> In s statuses.
Proof.
  rewrite existsb_exists. split.
  - intros [x [I E]]. apply String.eqb_eq in E. now subst.
  - intros I. exists s. split; [exact I | apply String.eqb_refl].
Qed.

(** PATCH succeeds exactly for a body whose status is one of none,
    complete, incomplete and ongoing, also when no PDF has the id; then the
    status is set as [updateStatus] sets it.  In every other case the file is
    left as it is. *)
Theorem patch_validates_status now i body f :
  (snd (PATCH now i body f) = ReplySuccess
   <-> exists s, body = StatusField (Some s) /\ In s statuses)
  /\ (snd (PATCH now i body f) <> ReplySuccess -> fst (PATCH now i body f) = f)
  /\ (forall s, body = StatusField (Some s) -> In s statuses ->
        fst (PATCH now i body f) = updateStatus now i s f).
Proof.
  assert (T : forall s, In s statuses -> truthy s = true).
  { intros s [E|[E|[E|[E|[]]]]]; now subst. }
  destruct body as [|[s|]]; cbn [PATCH].
  - split; [split; [discriminate | intros [s [E _]]; discriminate]|].
    split; [reflexivity | intros s E; discriminate].
  - destruct (existsb (String.eqb s) statuses) eqn:V.
    + apply valid_status_spec in V. rewrite (T s V). cbn [negb orb fst snd].
      split; [split; [intros _; now exists s | reflexivity]|].
      split; [congruence|]. intros s' E _. now inversion E.
    + rewrite orb_true_r. cbn [fst snd].
      split; [split; [discriminate|]|].
      * intros [s' [E I]]. inversion E; subst s'.
        apply valid_status_spec in I. congruence.
      * split; [reflexivity|]. intros s' E I. inversion E; subst s'.
        apply valid_status_spec in I. congruence.
  - split; [split; [discriminate | intros [s [E _]]; discriminate]|].
    split; [reflexivity | intros s E; discriminate].
Qed.

(** GET answers 404 and leaves the file alone when no PDF has the id.
    Otherwise it answers with the PDF as it was found, bytes included, and
    sets the time of update of that PDF, and of no other, to the time of
    the call: the answer still shows the time before. *)
Theorem get_answers_then_touches now i f :
  match getById i f with
  | None => GET now i f = (f, ReplyError "PDF not found" 404)
  | Some p =>
      snd (GET now i f) = ReplyPdf p
      /\ getById i (fst (GET now i f))
         = Some (mkPDF (id p) (name p) (file_data p) (status p) (uploaded_at p) now)
      /\ forall j, j <> i -> getById j (fst (GET now i f)) = getById j f
  end.
Proof.
  unfold GET. destruct (getById i f) as [p|] eqn:E; [|reflexivity].
  cbn [fst snd]. unfold getById, updateTimestamp in *.
  rewrite E. cbn [loadDb saveDb pdfs]. split; [reflexivity|]. split.
  - rewrite (find_update_first id) by reflexivity. now rewrite E.
  - intros j N. now apply (find_update_other id).
Qed.

Lemma get_answers_then_touches_library :
  snd (GET "2025-03-01" 2 Samples.library)
  = ReplyPdf (mkPDF 2 "b.pdf" "JVBERi0y" "ongoing" "2025-02-01" "2025-02-03")
  /\ getById 1 (fst (GET "2025-03-01" 2 Samples.library)) = getById 1 Samples.library.
Proof.
  pose proof (get_answers_then_touches "2025-03-01" 2 Samples.library) as H.
  change (getById 2 Samples.library)
    with (Some (mkPDF 2 "b.pdf" "JVBERi0y" "ongoing" "2025-02-01" "2025-02-03")) in H.
  destruct H as [R [_ O]]. split; [exact R|]. apply O. discriminate.
Defined.

Lemma patch_validates_status_sample :
  snd (PATCH "2025-03-01" 2 (StatusField (Some "done")) Samples.library)
  <> ReplySuccess
  /\ fst (PATCH "2025-03-01" 2 (StatusField (Some "done")) Samples.library)
     = Samples.library.
Proof.
  destruct (patch_validates_status "2025-03-01" 2 (StatusField (Some "done"))
              Samples.library) as [_ [H _]].
  split; [discriminate|]. apply H. discriminate.
Defined.

End RouteSpec.

(** ** More on the classifier *)

Module ClassifierMore.

Import Regex Viewer.

Lemma matches_prefix_nullable (ic : bool) (r : re) (s : jsstring) :
  nullable r = true -> matches_prefix ic r s = true.
Proof. intros H. destruct s; simpl; now rewrite H. Qed.

Lemma sign_matches (c : N) (t : jsstring) :
  In c signs -> matches_prefix true math_pattern (c :: t) = true.
Proof.
  intros H.
  change (matches_prefix true math_pattern (c :: t))
    with (nullable math_pattern || matches_prefix true (deriv true c math_pattern) t).
  rewrite matches_prefix_nullable; [apply orb_true_r|].
  unfold signs in H.
  repeat (destruct H as [H|H]; [subst c; vm_compute; reflexivity|]).
  destruct H.
Qed.

(** A text that holds one of the signs of the pattern (an integral sign,
    an equals sign, a less-than sign, a Greek pi, ...) is an equation,
    whatever else it holds. *)
Theorem sign_makes_equation (s : jsstring) (c : N) :
  In c signs -> In c s -> classify s = EquationSel.
Proof.
  intros S I. unfold classify, isMath.
  assert (T : test true math_pattern s = true).
  { induction s as [|a s IH]; [destruct I|].
    change (test true math_pattern (a :: s))
      with (matches_prefix true math_pattern (a :: s) || test true math_pattern s).
    destruct I as [E|I].
    - subst a. now rewrite sign_matches.
    - rewrite (IH I). apply orb_true_r. }
  now rewrite T.
Qed.

Lemma sign_makes_equation_sample :
  classify (units "if a > b then stop") = EquationSel.
Proof.
  apply (sign_makes_equation _ 62%N); vm_compute; tauto.
Defined.

End ClassifierMore.
